(** * Credentials of the YDB Node.js SDK: token acquisition and expiry

    A shallow embedding of the credentials module of ydb-nodejs-sdk
    ([makeCredentialsMetadata], [TokenAuthService], [IamAuthService]) and
    the properties of its token cache.

    Conventions of the embedding.
    - A luxon [DateTime] is its millisecond timestamp, a [Z].
    - An [async] method is a tree of operations ([Prog]); the nodes
      [AwaitRace] and [AwaitTick] are the points where the method is
      suspended, everything between two of them runs without interruption.
    - The clock, the signer and the token-exchange service belong to the
      environment: their answers are inputs of the interpreters.
    - [Metadata.add] of the grpc package checks what it is given: it throws
      for a value that has a character outside printable ASCII, so the
      building of the metadata is a step that can fail. *)

From Stdlib Require Import QArith Qround.
From stdpp Require Import base numbers list strings.

Local Open Scope string_scope.
Local Open Scope list_scope.
Local Open Scope Z_scope.

(** ** Values *)

(** Node's [Buffer]: a sequence of bytes. *)
Definition Buffer := list Byte.byte.

(** A luxon [DateTime] in UTC, as milliseconds since the epoch. *)
Definition DateTime := Z.

(** [dt.toSeconds()]: the timestamp in seconds, a fraction. The quotient is
    taken exactly; a double holds it with an error far below the spacing
    0.001 of the values that occur, so [Math.round] sees the same side of
    every half. *)
Definition toSeconds (dt : DateTime) : Q := dt # 1000.

(** [Math.round]: the nearest integer, halves going up. *)
Definition Math_round (x : Q) : Z := Qfloor (x + (1 # 2)).

(** [a.diff(b).valueOf()]: the difference in milliseconds. *)
Definition diff (a b : DateTime) : Z := a - b.

(** [dt.plus({milliseconds: n})]. *)
Definition plus (dt : DateTime) (milliseconds : Z) : DateTime := dt + milliseconds.

(** What a rejected promise or a [throw] carries. *)
Inductive JsError : Type :=
| TimedReject                  (* [setTimeout(reject, ms)]: rejected by the timer, without a reason *)
| Error (message : string)     (* [new Error(message)] *)
| ApiError (reason : string)   (* the rejection of [this.api.create], passed on as it is *)
| SignError (reason : string). (* thrown by [jwt.sign] *)

(** A string in a condition: the empty string is falsy. *)
Definition truthy (s : string) : bool :=
  match s with
  | EmptyString => false
  | String _ _ => true
  end.

(** [grpc.Metadata]: the pairs added to it, oldest first. *)
Definition Metadata := list (string * string).

Definition Metadata_new : Metadata := [].

(** The double quote, for the messages that quote a key or a value. *)
Definition doubleQuote : string :=
  String (Ascii.Ascii false true false false false true false false) EmptyString.

Definition all_chars (legal : Ascii.ascii -> bool) : string -> bool :=
  fix go (s : string) : bool :=
    match s with
    | EmptyString => true
    | String c rest => legal c && go rest
    end.

Definition code_within (low high : nat) (c : Ascii.ascii) : bool :=
  let n := Ascii.nat_of_ascii c in Nat.leb low n && Nat.leb n high.

(** [grpc.metadataNonbinValueIsLegal]: every character of the value is a
    printable ASCII character, from the space (32) to the tilde (126). The
    empty value is legal. *)
Definition metadataNonbinValueIsLegal (value : string) : bool :=
  all_chars (code_within 32 126) value.

(** [grpc.metadataKeyIsLegal]: the key is not empty and made of digits,
    lower-case letters, [-], [_] and [.]. *)
Definition legalKeyChar (c : Ascii.ascii) : bool :=
  code_within 48 57 c || code_within 97 122 c
  || code_within 45 46 c || code_within 95 95 c.

Definition metadataKeyIsLegal (key : string) : bool :=
  truthy key && all_chars legalKeyChar key.

(** [grpc.metadataKeyIsBinary]: the key has at least five characters and
    ends with [-bin]. *)
Definition metadataKeyIsBinary (key : string) : bool :=
  Nat.leb 5 (String.length key)
  && String.eqb (String.substring (String.length key - 4) 4 key) "-bin".

(** [key.toLowerCase()], on the ASCII letters. *)
Definition toLowerCase (s : string) : string :=
  (fix go (s : string) : string :=
     match s with
     | EmptyString => EmptyString
     | String c rest =>
         String (if code_within 65 90 c
                 then Ascii.ascii_of_nat (Ascii.nat_of_ascii c + 32) else c)
                (go rest)
     end) s.

(** What [Metadata.add] throws for a value it refuses. *)
Definition illegalValue (value : string) : JsError :=
  Error ("Metadata string value " ++ doubleQuote ++ value ++ doubleQuote
         ++ " contains illegal characters").

(** [normalizeKey] of the class [Metadata]. *)
Definition normalizeKey (key : string) : JsError + string :=
  let key := toLowerCase key in
  if metadataKeyIsLegal key then inr key
  else inl (Error ("Metadata key" ++ doubleQuote ++ key ++ doubleQuote
                   ++ " contains illegal characters")).

(** [validate] of the class [Metadata], for a value that is a string. *)
Definition validate (key value : string) : JsError + string :=
  if metadataKeyIsBinary key
  then inl (Error "keys that end with '-bin' must have Buffer values")
  else if metadataNonbinValueIsLegal value then inr value
  else inl (illegalValue value).

(** [metadata.add(key, value)]: the key is normalised, the value validated,
    and only then is the pair added; either check may throw. *)
Definition Metadata_add (key value : string) (m : Metadata) : JsError + Metadata :=
  match normalizeKey key with
  | inl e => inl e
  | inr key =>
      match validate key value with
      | inl e => inl e
      | inr value => inr (m ++ [(key, value)])
      end
  end.

Definition makeCredentialsMetadata (token : string) : JsError + Metadata :=
  let metadata := Metadata_new in
  match Metadata_add "x-ydb-auth-ticket" token metadata with
  | inl e => inl e
  | inr metadata => inr metadata
  end.

Record IIAmCredentials : Type := {
  serviceAccountId : string;
  accessKeyId : string;
  privateKey : Buffer;
  iamEndpoint : string
}.

(** Modelled from the spec: [ISslCredentials] is declared in [./utils], which
    is not among the sources; the specification calls it the
    transport-security material of the connection. *)
Record ISslCredentials : Type := { material : Buffer }.

Module IAuthCredentials.
Record t : Type := {
  sslCredentials : ISslCredentials;
  iamCredentials : IIAmCredentials
}.
End IAuthCredentials.

(** The payload and the options handed to [jwt.sign]. *)
Record JwtPayload : Type := { iss : string; aud : string; iat : Z; exp : Z }.

Inductive Algorithm : Type := HS256 | RS256 | ES256 | PS256 | none.

Record SignOptions : Type := { algorithm : Algorithm; keyid : string }.

(** [ICreateIamTokenResponse]: [iamToken] may be missing ([null] or
    [undefined], here [None]). *)
Record ICreateIamTokenResponse : Type := { iamToken : option string }.

(** ** The environment *)

(** The places where the clock is read. *)
Inductive ClockSite : Type := InExpired | InGetJwtRequest | InUpdateToken.

(** How [Promise.race([timedReject, tokenPromise])] settles: by whichever
    of the two settles first. *)
Inductive RaceOutcome : Type :=
| TimerFirst
| Fulfilled (response : ICreateIamTokenResponse)
| Rejected (reason : string).

(** What a run does outside of the object, in the order it does it. *)
Inductive Effect : Type :=
| Timer (ms : Z)           (* a timer was armed *)
| Signing (payload : JwtPayload) (key : Buffer) (options : SignOptions)
                           (* [jwt.sign] was called *)
| Request (jwt : string).  (* a request was sent to the token-exchange service *)

(** What the environment answers during one uninterrupted stretch. *)
Record Env : Type := {
  utc : ClockSite -> DateTime;
  sign : JwtPayload -> Buffer -> SignOptions -> JsError + string
}.

(** The environment of one whole call made alone: also the outcome of the
    race the call may wait for. *)
Record World : Type := { env :> Env; race : RaceOutcome }.

(** ** Methods as trees of operations *)

Section Prog.
(** [O] is the class of [this]. *)
Context {O : Type}.

Inductive Prog (A : Type) : Type :=
| Ret (a : A)
| Throw (e : JsError)
| This (k : O -> Prog A)                       (* read [this] *)
| Assign (f : O -> O) (k : Prog A)             (* [this.field = value] *)
| UtcNow (site : ClockSite) (k : DateTime -> Prog A)   (* [DateTime.utc()] *)
| JwtSign (payload : JwtPayload) (key : Buffer) (options : SignOptions)
          (k : JsError + string -> Prog A)     (* [jwt.sign(payload, key, options)] *)
| SetTimeout (ms : Z) (k : Prog A)             (* [setTimeout(reject, ms)] *)
| ApiCreate (jwt : string) (k : Prog A)        (* [this.api.create({jwt})] *)
| AwaitRace (k : RaceOutcome -> Prog A)        (* [await Promise.race([..])] *)
| AwaitTick (k : Prog A).                      (* resumed by the microtask queue *)

Global Arguments Ret {A} a.
Global Arguments Throw {A} e.
Global Arguments This {A} k.
Global Arguments Assign {A} f k.
Global Arguments UtcNow {A} site k.
Global Arguments JwtSign {A} payload key options k.
Global Arguments SetTimeout {A} ms k.
Global Arguments ApiCreate {A} jwt k.
Global Arguments AwaitRace {A} k.
Global Arguments AwaitTick {A} k.

Fixpoint bind {A B : Type} (p : Prog A) (f : A -> Prog B) : Prog B :=
  match p with
  | Ret a => f a
  | Throw e => Throw e
  | This k => This (fun o => bind (k o) f)
  | Assign g k => Assign g (bind k f)
  | UtcNow site k => UtcNow site (fun t => bind (k t) f)
  | JwtSign payload key options k => JwtSign payload key options (fun r => bind (k r) f)
  | SetTimeout ms k => SetTimeout ms (bind k f)
  | ApiCreate jwt k => ApiCreate jwt (bind k f)
  | AwaitRace k => AwaitRace (fun r => bind (k r) f)
  | AwaitTick k => AwaitTick (bind k f)
  end.

(** The result of a call made alone, from start to end. *)
Record Run (A : Type) : Type := {
  result : JsError + A;
  final : O;
  effects : list Effect
}.
Global Arguments result {A} r.
Global Arguments final {A} r.
Global Arguments effects {A} r.

Definition logged {A : Type} (e : Effect) (r : Run A) : Run A :=
  {| result := result r; final := final r; effects := e :: effects r |}.

Fixpoint run {A : Type} (w : World) (p : Prog A) (this : O) : Run A :=
  match p with
  | Ret a => {| result := inr a; final := this; effects := [] |}
  | Throw e => {| result := inl e; final := this; effects := [] |}
  | This k => run w (k this) this
  | Assign f k => run w k (f this)
  | UtcNow site k => run w (k (utc w site)) this
  | JwtSign payload key options k =>
      logged (Signing payload key options) (run w (k (sign w payload key options)) this)
  | SetTimeout ms k => logged (Timer ms) (run w k this)
  | ApiCreate jwt k => logged (Request jwt) (run w k this)
  | AwaitRace k => run w (k (race w)) this
  | AwaitTick k => run w k this
  end.

(** One uninterrupted stretch: up to the end of the method or to the next
    point where it is suspended. *)
Inductive Stretch (A : Type) : Type :=
| Ended (r : JsError + A)
| Racing (k : RaceOutcome -> Prog A)
| Ticking (k : Prog A).
Global Arguments Ended {A} r.
Global Arguments Racing {A} k.
Global Arguments Ticking {A} k.

Record Step (A : Type) : Type := {
  reached : Stretch A;
  after : O;
  emitted : list Effect
}.
Global Arguments reached {A} s.
Global Arguments after {A} s.
Global Arguments emitted {A} s.

Definition emitting {A : Type} (e : Effect) (s : Step A) : Step A :=
  {| reached := reached s; after := after s; emitted := e :: emitted s |}.

Fixpoint stretch {A : Type} (e : Env) (p : Prog A) (this : O) : Step A :=
  match p with
  | Ret a => {| reached := Ended (inr a); after := this; emitted := [] |}
  | Throw err => {| reached := Ended (inl err); after := this; emitted := [] |}
  | This k => stretch e (k this) this
  | Assign f k => stretch e k (f this)
  | UtcNow site k => stretch e (k (utc e site)) this
  | JwtSign payload key options k =>
      emitting (Signing payload key options)
        (stretch e (k (sign e payload key options)) this)
  | SetTimeout ms k => emitting (Timer ms) (stretch e k this)
  | ApiCreate jwt k => emitting (Request jwt) (stretch e k this)
  | AwaitRace k => {| reached := Racing k; after := this; emitted := [] |}
  | AwaitTick k => {| reached := Ticking k; after := this; emitted := [] |}
  end.
End Prog.

Global Arguments Prog : clear implicits.
Global Arguments Run : clear implicits.
Global Arguments Stretch : clear implicits.
Global Arguments Step : clear implicits.

#[global] Instance Prog_ret {O} : MRet (Prog O) := fun A a => Ret a.
#[global] Instance Prog_bind {O} : MBind (Prog O) := fun A B f p => bind p f.

Definition is_request (e : Effect) : bool :=
  match e with
  | Request _ => true
  | _ => false
  end.

(** The number of requests sent to the token-exchange service. *)
Definition requests (l : list Effect) : nat := length (List.filter is_request l).

(** ** Calls in flight on one object

    Several calls of one method may be in flight on the same object: a call
    runs an uninterrupted stretch, is suspended, and is resumed later, after
    stretches of other calls. A promise settles once: what arrives for a
    call that no longer waits is dropped. *)

Section Loop.
Context {O A : Type}.
(** The method that callers invoke. *)
Variable method : Prog O A.

Inductive Call : Type :=
| Waiting (armed : Z) (delay : option Z) (k : RaceOutcome -> Prog O A)
    (* suspended at the race; the timer of the race was armed at [armed]
       to fire [delay] later *)
| Queued (k : Prog O A)           (* ready to be resumed by the microtask queue *)
| Returned (r : JsError + A).     (* the promise of the call is settled *)

Record Loop : Type := {
  self : O;
  clock : Z;                (* the time by which timers are due *)
  calls : list Call;        (* the calls made so far, by number *)
  log : list Effect
}.

Inductive Event : Type :=
| Invoke                                   (* a caller invokes the method *)
| Elapse (ms : Z)                          (* time passes *)
| Settle (c : nat) (by_ : RaceOutcome)     (* the timer of call [c] fires, or its request settles *)
| Microtask (c : nat).                     (* call [c] is resumed *)

(** The delay of the first timer armed. *)
Fixpoint timer (effs : list Effect) : option Z :=
  match effs with
  | [] => None
  | Timer ms :: _ => Some ms
  | _ :: effs' => timer effs'
  end.

Definition place (now : Z) (s : Step O A) : Call :=
  match reached s with
  | Ended r => Returned r
  | Racing k => Waiting now (timer (emitted s)) k
  | Ticking k => Queued k
  end.

Definition due (armed : Z) (delay : option Z) (now : Z) : bool :=
  match delay with
  | Some ms => armed + ms <=? now
  | None => false
  end.

Definition step (e : Env) (ev : Event) (l : Loop) : Loop :=
  match ev with
  | Invoke =>
      let s := stretch e method (self l) in
      {| self := after s; clock := clock l;
         calls := calls l ++ [place (clock l) s];
         log := log l ++ emitted s |}
  | Elapse ms =>
      if 0 <=? ms
      then {| self := self l; clock := clock l + ms; calls := calls l; log := log l |}
      else l
  | Settle c by_ =>
      match calls l !! c with
      | Some (Waiting armed delay k) =>
          match by_ with
          | TimerFirst =>
              if due armed delay (clock l)
              then {| self := self l; clock := clock l;
                      calls := <[c := Queued (k TimerFirst)]> (calls l); log := log l |}
              else l
          | _ =>
              {| self := self l; clock := clock l;
                 calls := <[c := Queued (k by_)]> (calls l); log := log l |}
          end
      | _ => l
      end
  | Microtask c =>
      match calls l !! c with
      | Some (Queued k) =>
          let s := stretch e k (self l) in
          {| self := after s; clock := clock l;
             calls := <[c := place (clock l) s]> (calls l);
             log := log l ++ emitted s |}
      | _ => l
      end
  end.

Fixpoint exec (sched : list (Env * Event)) (l : Loop) : Loop :=
  match sched with
  | [] => l
  | (e, ev) :: sched' => exec sched' (step e ev l)
  end.

Definition start (o : O) : Loop :=
  {| self := o; clock := 0; calls := []; log := [] |}.
End Loop.

Global Arguments Call : clear implicits.
Global Arguments Loop : clear implicits.

(** The operations as methods to be sequenced. *)
Section Operations.
Context {O : Type}.

Definition this : Prog O O := This Ret.
Definition assign (f : O -> O) : Prog O unit := Assign f (Ret tt).
Definition utcNow (site : ClockSite) : Prog O DateTime := UtcNow site Ret.
Definition setTimeout (ms : Z) : Prog O unit := SetTimeout ms (Ret tt).
Definition apiCreate (jwt : string) : Prog O unit := ApiCreate jwt (Ret tt).
Definition awaitTick : Prog O unit := AwaitTick (Ret tt).

(** A call that returns or throws at once: [return f(..)] with a
    synchronous [f]. *)
Definition evaluate {A : Type} (r : JsError + A) : Prog O A :=
  match r with
  | inl e => Throw e
  | inr a => Ret a
  end.

(** [jwt.sign] returns the token or throws. *)
Definition jwtSign (payload : JwtPayload) (key : Buffer) (options : SignOptions)
  : Prog O string :=
  JwtSign payload key options
    (fun r => match r with inl e => Throw e | inr token => Ret token end).

(** [await Promise.race([timedReject, tokenPromise])]: the response, or the
    rejection of whichever promise was rejected first. *)
Definition awaitRace : Prog O ICreateIamTokenResponse :=
  AwaitRace (fun outcome =>
    match outcome with
    | TimerFirst => Throw TimedReject
    | Fulfilled response => Ret response
    | Rejected reason => Throw (ApiError reason)
    end).
End Operations.

(** ** The interface [IAuthService] *)

Class IAuthService (O : Type) : Type := {
  getAuthMetadata : Prog O Metadata;
  sslCredentials : O -> option ISslCredentials
}.

(** ** [TokenAuthService] *)

Module TokenAuthService.
Record t : Type := { token : string }.

Definition constructor (token : string) : t := {| token := token |}.

Definition getAuthMetadata : Prog t Metadata :=
  self ← this;
  evaluate (makeCredentialsMetadata (token self)).

(** Successive calls on one object, each in its own environment. *)
Fixpoint calls (ws : list World) (self : t) : list (Run t Metadata) :=
  match ws with
  | [] => []
  | w :: ws' =>
      let r := run w getAuthMetadata self in
      r :: calls ws' (final r)
  end.
End TokenAuthService.

#[global] Instance TokenAuthService_IAuthService : IAuthService TokenAuthService.t := {
  getAuthMetadata := TokenAuthService.getAuthMetadata;
  sslCredentials := fun _ => None
}.

(** ** [GrpcService] *)

(** Modelled from the spec: the class [GrpcService] is declared in [./utils],
    which is not among the sources. The specification says of the transport
    layer that it validates its inputs lazily: an object of the class keeps
    what it was constructed from, for the connection made later. *)
Record GrpcService : Type := {
  host : string;
  name : string;
  transportSecurity : ISslCredentials
}.

(** Modelled from the spec: the constructor of [GrpcService], which validates
    nothing when the object is made. *)
Definition GrpcService_lazy (host name : string) (ssl : ISslCredentials)
  : JsError + GrpcService :=
  inr {| host := host; name := name; transportSecurity := ssl |}.

(** ** [IamAuthService] *)

Module IamAuthService.
Definition jwtExpirationTimeout : Z := 3600 * 1000.
Definition tokenExpirationTimeout : Z := 120 * 1000.
Definition tokenRequestTimeout : Z := 10 * 1000.

Record t : Type := {
  base : GrpcService;
  token : string;
  tokenTimestamp : option DateTime;
  iamCredentials : IIAmCredentials;
  sslCredentials : ISslCredentials
}.

Definition set_token (v : string) (self : t) : t :=
  {| base := base self; token := v; tokenTimestamp := tokenTimestamp self;
     iamCredentials := iamCredentials self; sslCredentials := sslCredentials self |}.

Definition set_tokenTimestamp (v : option DateTime) (self : t) : t :=
  {| base := base self; token := token self; tokenTimestamp := v;
     iamCredentials := iamCredentials self; sslCredentials := sslCredentials self |}.

Section Constructor.
(** The constructor of the base class, [super(..)]. *)
Variable GrpcService_new : string -> string -> ISslCredentials -> JsError + GrpcService.

Definition constructor (authCredentials : IAuthCredentials.t) : JsError + t :=
  match GrpcService_new
          (iamEndpoint (IAuthCredentials.iamCredentials authCredentials))
          "yandex.cloud.iam.v1.IamTokenService"
          (IAuthCredentials.sslCredentials authCredentials) with
  | inl e => inl e
  | inr super =>
      inr {| base := super;
             token := "";
             iamCredentials := IAuthCredentials.iamCredentials authCredentials;
             tokenTimestamp := None;
             sslCredentials := IAuthCredentials.sslCredentials authCredentials |}
  end.
End Constructor.

Definition getJwtRequest : Prog t string :=
  now ← utcNow InGetJwtRequest;
  let expires := plus now jwtExpirationTimeout in
  self ← this;
  let payload :=
    {| iss := serviceAccountId (iamCredentials self);
       aud := "https://iam.api.cloud.yandex.net/iam/v1/tokens";
       iat := Math_round (toSeconds now);
       exp := Math_round (toSeconds expires) |} in
  let options :=
    {| algorithm := PS256; keyid := accessKeyId (iamCredentials self) |} in
  jwtSign payload (privateKey (iamCredentials self)) options.

Definition expired : Prog t bool :=
  self ← this;
  match tokenTimestamp self with
  | None => mret true
  | Some timestamp =>
      now ← utcNow InExpired;
      mret (diff now timestamp >? tokenExpirationTimeout)
  end.

(** Arms the timer, sends the request; the promise it returns is the race
    of the two, which the caller awaits. *)
Definition sendTokenRequest : Prog t unit :=
  setTimeout tokenRequestTimeout;;
  jwt ← getJwtRequest;
  apiCreate jwt.

Definition updateToken : Prog t unit :=
  sendTokenRequest;;
  response ← awaitRace;
  match iamToken response with
  | Some iamToken =>
      if truthy iamToken then
        assign (set_token iamToken);;
        now ← utcNow InUpdateToken;
        assign (set_tokenTimestamp (Some now))
      else Throw (Error "Received empty token from IAM!")
  | None => Throw (Error "Received empty token from IAM!")
  end.

Definition getAuthMetadata : Prog t Metadata :=
  stale ← expired;
  (if stale : bool then updateToken;; awaitTick else mret tt);;
  self ← this;
  evaluate (makeCredentialsMetadata (token self)).

(** Successive calls on one object, each made when the one before it has
    returned, each in its own environment. *)
Fixpoint calls (ws : list World) (self : t) : list (Run t Metadata) :=
  match ws with
  | [] => []
  | w :: ws' =>
      let r := run w getAuthMetadata self in
      r :: calls ws' (final r)
  end.
End IamAuthService.

#[global] Instance IamAuthService_IAuthService : IAuthService IamAuthService.t := {
  getAuthMetadata := IamAuthService.getAuthMetadata;
  sslCredentials := fun self => Some (IamAuthService.sslCredentials self)
}.

(** ** Notions used to state the properties *)

(** A run of one method followed by another: the run of the first, then,
    unless it threw, the run of the second from where the first ended. *)
Definition andThen {O A B : Type} (r : Run O A) (f : A -> O -> Run O B) : Run O B :=
  match result r with
  | inl e => {| result := inl e; final := final r; effects := effects r |}
  | inr a =>
      let r' := f a (final r) in
      {| result := result r'; final := final r'; effects := effects r ++ effects r' |}
  end.

(** The value of the staleness check of [IamAuthService] at time [now]. *)
Definition stale (now : DateTime) (self : IamAuthService.t) : bool :=
  match IamAuthService.tokenTimestamp self with
  | None => true
  | Some timestamp => now - timestamp >? 120 * 1000
  end.

(** What [getJwtRequest] hands to [jwt.sign] at time [now]. *)
Definition payloadAt (now : DateTime) (self : IamAuthService.t) : JwtPayload :=
  {| iss := serviceAccountId (IamAuthService.iamCredentials self);
     aud := "https://iam.api.cloud.yandex.net/iam/v1/tokens";
     iat := Math_round (toSeconds now);
     exp := Math_round (toSeconds now) + 3600 |}.

Definition optionsOf (self : IamAuthService.t) : SignOptions :=
  {| algorithm := PS256; keyid := accessKeyId (IamAuthService.iamCredentials self) |}.

Definition keyOf (self : IamAuthService.t) : Buffer :=
  privateKey (IamAuthService.iamCredentials self).

(** What a refresh started at [self] does when it runs alone in [w]: the
    timer, the signed assertion, the request, and then what the race decides. *)
Definition refresh (w : World) (self : IamAuthService.t) : Run IamAuthService.t unit :=
  let payload := payloadAt (utc w InGetJwtRequest) self in
  let signing := Signing payload (keyOf self) (optionsOf self) in
  let timer := Timer (10 * 1000) in
  match sign w payload (keyOf self) (optionsOf self) with
  | inl e => {| result := inl e; final := self; effects := [timer; signing] |}
  | inr jwt =>
      let sent := [timer; signing; Request jwt] in
      match race w with
      | TimerFirst => {| result := inl TimedReject; final := self; effects := sent |}
      | Rejected reason => {| result := inl (ApiError reason); final := self; effects := sent |}
      | Fulfilled response =>
          match iamToken response with
          | Some (String _ _ as token) =>
              {| result := inr tt;
                 final := IamAuthService.set_tokenTimestamp (Some (utc w InUpdateToken))
                            (IamAuthService.set_token token self);
                 effects := sent |}
          | _ =>
              {| result := inl (Error "Received empty token from IAM!");
                 final := self; effects := sent |}
          end
      end
  end.

(** The answer built from the cached token: the metadata, or what the
    building of it throws. *)
Definition answer (self : IamAuthService.t) : Run IamAuthService.t Metadata :=
  {| result := makeCredentialsMetadata (IamAuthService.token self);
     final := self; effects := [] |}.

(** What a call gives for [token]: the metadata when gRPC accepts the token
    as a value, the error of [Metadata.add] otherwise. *)
Definition ticket (token : string) : JsError + Metadata :=
  if metadataNonbinValueIsLegal token
  then inr [("x-ydb-auth-ticket", token)]
  else inl (illegalValue token).

(** ** The suspended forms of [getAuthMetadata] *)

(** What [await] makes of the outcome of the race. *)
Definition settled (outcome : RaceOutcome) : Prog IamAuthService.t ICreateIamTokenResponse :=
  match outcome with
  | TimerFirst => Throw TimedReject
  | Fulfilled response => Ret response
  | Rejected reason => Throw (ApiError reason)
  end.

(** The rest of [updateToken] once the response is there. *)
Definition install (response : ICreateIamTokenResponse) : Prog IamAuthService.t unit :=
  match iamToken response with
  | Some iamToken =>
      if truthy iamToken then
        assign (IamAuthService.set_token iamToken);;
        now ← utcNow InUpdateToken;
        assign (IamAuthService.set_tokenTimestamp (Some now))
      else Throw (Error "Received empty token from IAM!")
  | None => Throw (Error "Received empty token from IAM!")
  end.

(** The statement [return makeCredentialsMetadata(this.token)]. *)
Definition respond : Prog IamAuthService.t Metadata :=
  self ← this;
  evaluate (makeCredentialsMetadata (IamAuthService.token self)).

(** A call suspended at the race: the rest of [updateToken], then the rest
    of [getAuthMetadata]. *)
Definition afterRace (outcome : RaceOutcome) : Prog IamAuthService.t Metadata :=
  ((settled outcome ≫= install) ≫= (fun _ => awaitTick)) ≫= (fun _ => respond).

(** A call of [getAuthMetadata] in flight on [self] is in one of these forms. *)
Definition inFlight (self : IamAuthService.t) (c : Call IamAuthService.t Metadata) : Prop :=
  match c with
  | Waiting _ delay k => delay = Some IamAuthService.tokenRequestTimeout /\ k = afterRace
  | Queued k =>
      (k = respond /\ IamAuthService.tokenTimestamp self <> None)
      \/ exists outcome, k = afterRace outcome
  | Returned (inr metadata) =>
      exists token, token <> "" /\ metadata = [("x-ydb-auth-ticket", token)]
  | Returned (inl _) => True
  end.

(** Once there is a timestamp, the token is not empty. *)
Definition tokenWithTimestamp (self : IamAuthService.t) : Prop :=
  IamAuthService.tokenTimestamp self <> None -> IamAuthService.token self <> "".

(** The pair of the cached token and its timestamp. *)
Definition cache (self : IamAuthService.t) : string * option DateTime :=
  (IamAuthService.token self, IamAuthService.tokenTimestamp self).

(** What holds of an object with calls in flight, whatever was scheduled. *)
Definition sound (l : Loop IamAuthService.t Metadata) : Prop :=
  tokenWithTimestamp (self l) /\ Forall (inFlight (self l)) (calls l).

(** The forms alone, whatever the object holds. *)
Definition shaped (c : Call IamAuthService.t Metadata) : Prop :=
  match c with
  | Waiting _ delay k => delay = Some IamAuthService.tokenRequestTimeout /\ k = afterRace
  | Queued k => k = respond \/ exists outcome, k = afterRace outcome
  | Returned _ => True
  end.

(** The race of call [c] was decided by the timer: the call is about to
    fail, or has failed, with the rejection of the timer. *)
Definition timedOut (c : nat) (l : Loop IamAuthService.t Metadata) : Prop :=
  calls l !! c = Some (Queued (afterRace TimerFirst))
  \/ calls l !! c = Some (Returned (inl TimedReject)).

(** The events other than the settling of the race of call [c]. *)
Definition notSettling (c : nat) (item : Env * Event) : bool :=
  match snd item with
  | Settle c' _ => negb (Nat.eqb c' c)
  | _ => true
  end.

(** ** Sample inputs *)

Definition sampleCredentials : IIAmCredentials :=
  {| serviceAccountId := "svc-1"; accessKeyId := "key-1";
     privateKey := [Byte.x6b; Byte.x65; Byte.x79];
     iamEndpoint := "iam.api.cloud.yandex.net:443" |}.

Definition sampleSsl : ISslCredentials := {| material := [Byte.x63; Byte.x61] |}.

(** An object that has never fetched a token. *)
Definition unissued : IamAuthService.t :=
  {| IamAuthService.base :=
       {| host := "iam.api.cloud.yandex.net:443";
          name := "yandex.cloud.iam.v1.IamTokenService";
          transportSecurity := sampleSsl |};
     IamAuthService.token := "";
     IamAuthService.tokenTimestamp := None;
     IamAuthService.iamCredentials := sampleCredentials;
     IamAuthService.sslCredentials := sampleSsl |}.

(** The same object holding the token ["t1"], issued at time 0. *)
Definition issuedAtZero : IamAuthService.t :=
  IamAuthService.set_tokenTimestamp (Some 0) (IamAuthService.set_token "t1" unissued).

(** A signer that always succeeds. *)
Definition signAll (payload : JwtPayload) (key : Buffer) (options : SignOptions)
  : JsError + string := inr "signed".

(** The environment in which every clock reads [now]. *)
Definition envAt (now : DateTime) : Env := {| utc := fun _ => now; sign := signAll |}.

(** The world at [now] in which the exchange answers with [token]. *)
Definition worldAt (now : DateTime) (token : option string) : World :=
  {| env := envAt now; race := Fulfilled {| iamToken := token |} |}.

(** Credentials whose identity fields are all empty. *)
Definition emptyIdentity : IAuthCredentials.t :=
  {| IAuthCredentials.sslCredentials := sampleSsl;
     IAuthCredentials.iamCredentials :=
       {| serviceAccountId := ""; accessKeyId := ""; privateKey := [];
          iamEndpoint := "iam.api.cloud.yandex.net:443" |} |}.

(** A signer that throws when the key is empty. *)
Definition signWithKey (payload : JwtPayload) (key : Buffer) (options : SignOptions)
  : JsError + string :=
  match key with
  | [] => inl (SignError "invalid private key")
  | _ :: _ => inr "signed"
  end.

(** An object holding a token issued at time 0 whose private key is empty. *)
Definition issuedWithoutKey : IamAuthService.t :=
  {| IamAuthService.base := IamAuthService.base unissued;
     IamAuthService.token := "t1";
     IamAuthService.tokenTimestamp := Some 0;
     IamAuthService.iamCredentials :=
       {| serviceAccountId := "svc-1"; accessKeyId := "key-1"; privateKey := [];
          iamEndpoint := "iam.api.cloud.yandex.net:443" |};
     IamAuthService.sslCredentials := sampleSsl |}.

(** A world at [now] whose signer wants a key. *)
Definition keyedWorldAt (now : DateTime) (token : option string) : World :=
  {| env := {| utc := fun _ => now; sign := signWithKey |};
     race := Fulfilled {| iamToken := token |} |}.

(** Two calls on a new object: the first is answered with ["t1"], the
    second, made while the first waits, is answered with the empty token. *)
Definition twoCalls : list (Env * Event) :=
  [(envAt 1000, Invoke); (envAt 1001, Invoke);
   (envAt 1500, Settle 0 (Fulfilled {| iamToken := Some "t1" |}));
   (envAt 1500, Microtask 0);
   (envAt 1600, Settle 1 (Fulfilled {| iamToken := Some "" |}));
   (envAt 1600, Microtask 1);
   (envAt 1600, Microtask 0);
   (envAt 2000, Invoke)].

(** A call on a new object, and ten seconds. *)
Definition callAndWait : list (Env * Event) :=
  [(envAt 1000, Invoke); (envAt 1000, Elapse 10000)].

(** A token gRPC refuses as a value: ["t1"] followed by a line feed. *)
Definition lineFeed : string :=
  String (Ascii.Ascii false true false true false false false false) EmptyString.

Definition refusedToken : string := ("t1" ++ lineFeed)%string.

(** One of the inputs of the constructor is empty. *)
Definition hasEmptyInput (c : IAuthCredentials.t) : Prop :=
  serviceAccountId (IAuthCredentials.iamCredentials c) = ""
  \/ accessKeyId (IAuthCredentials.iamCredentials c) = ""
  \/ privateKey (IAuthCredentials.iamCredentials c) = []
  \/ iamEndpoint (IAuthCredentials.iamCredentials c) = ""
  \/ material (IAuthCredentials.sslCredentials c) = [].

(** ** Further notions *)

Definition is_invoke (item : Env * Event) : bool :=
  match snd item with
  | Invoke => true
  | _ => false
  end.

(** The number of invocations in a schedule. *)
Definition invocations (sched : list (Env * Event)) : nat :=
  length (List.filter is_invoke sched).

(** The race of call [c] is over: the call is ready to go on with what the
    race gave, or to answer, or it has returned. *)
Definition decided (c : nat) (l : Loop IamAuthService.t Metadata) : Prop :=
  match calls l !! c with
  | Some (Queued k) => k = respond \/ exists outcome, k = afterRace outcome
  | Some (Returned _) => True
  | _ => False
  end.

(** The signer of [e] returns the assertion of [self]. *)
Definition signs (e : Env) (self : IamAuthService.t) : Prop :=
  exists jwt,
    sign e (payloadAt (utc e InGetJwtRequest) self) (keyOf self) (optionsOf self) = inr jwt.

(** Two calls on a new object; the answer to the second request arrives
    first, the answer to the first request last. *)
Definition outOfOrder : list (Env * Event) :=
  [(envAt 1000, Invoke); (envAt 2000, Invoke);
   (envAt 2100, Settle 1 (Fulfilled {| iamToken := Some "second" |}));
   (envAt 2100, Microtask 1);
   (envAt 2200, Microtask 1);
   (envAt 3000, Settle 0 (Fulfilled {| iamToken := Some "first" |}));
   (envAt 3000, Microtask 0)].

(** Two calls on a new object; the first installs its token and, before it
    answers, the second installs another. *)
Definition overtaken : list (Env * Event) :=
  [(envAt 1000, Invoke); (envAt 1000, Invoke);
   (envAt 1500, Settle 0 (Fulfilled {| iamToken := Some "a" |}));
   (envAt 1500, Microtask 0);
   (envAt 1500, Settle 1 (Fulfilled {| iamToken := Some "b" |}));
   (envAt 1500, Microtask 1)].

(** ** The example script

    The script of [examples/basic-example] drives the SDK: every use of the
    SDK, of the logger and of the process is a call the script makes to its
    host, which answers with a value or by throwing. *)

Module BasicExample.
(** An object the script gets from the SDK and hands back without looking
    inside; a name stands for it. *)
Definition Value := string.

Inductive PrimitiveTypeId : Type := UINT64 | UTF8 | DATE.

(** [Ydb.Type.create({optionalType: {item: {typeId}}})]. *)
Inductive YdbType : Type := optionalType (typeId : PrimitiveTypeId).

(** [new Column(name, type)]. *)
Record Column : Type := { column_name : string; column_type : YdbType }.

(** The calls chained on [new TableDescription()], in order, as they are
    written: what the class makes of them is in [../../table], which is not
    among the sources. *)
Inductive Building : Type :=
| withColumn (column : Column)
| withPrimaryKey (key : string)
| withPrimaryKeys (keys : list string).

Definition TableDescription := list Building.

(** [{grant: {subject, permissionNames}}]. *)
Record Grant : Type := { subject : string; permissionNames : list string }.

(** The two functions handed to [withSession] by [run]: the first prepares
    the tables, the second reads from them. *)
Inductive Callback : Type :=
| preparing (logger : Value) (dbName : string)
| selecting (logger : Value) (dbName : string).

(** The query of [executeQuery]: its text, or the identifier of a prepared
    query. *)
Inductive Query : Type :=
| text (query : string)
| prepared (id : string).

Inductive Call : Type :=
| getLogger (level : string)
| getCredentialsFromEnv
| Driver_new (entryPoint dbName : string) (authService : Value)
| ready (driver : Value) (timeout : Z)
| withSession (driver : Value) (callback : Callback)
| dropTable (session : Value) (table : string)
| createTable (session : Value) (table : string) (description : TableDescription)
| prepareQuery (session : Value) (query : string)
| getSeriesData
| getSeasonsData
| getEpisodesData
| executeQuery (session : Value) (query : Query) (params : option (list (string * Value)))
| createNativeObjects (resultSet : option Value)
| makeDirectory (driver : Value) (path : string)
| modifyPermissions (driver : Value) (path : string) (permissions : list Grant)
| describePath (driver : Value) (path : string)
| listDirectory (driver : Value) (path : string)
| removeDirectory (driver : Value) (path : string)
| destroy (driver : Value)
| JSON_stringify (value : Value).

(** What a call gives when it returns. *)
Definition Answer (c : Call) : Type :=
  match c with
  | ready _ _ => bool
  | prepareQuery _ _ => string              (* [queryId] of the prepared query *)
  | executeQuery _ _ _ => list Value        (* [resultSets] *)
  | JSON_stringify _ => string
  | getLogger _ | getCredentialsFromEnv | Driver_new _ _ _
  | getSeriesData | getSeasonsData | getEpisodesData
  | createNativeObjects _ | describePath _ _ | listDirectory _ _ => Value
  | _ => unit
  end.

Inductive Level : Type := info | fatal | error.

Inductive LogArg : Type :=
| message (s : string)
| shown (v : Value)
| thrown (e : JsError).

(** A function of the script: what it does, call after call. A line of log
    is written without an answer (the logger does not throw); every other
    call is answered by the host, with a value or with what it throws. *)
Inductive Script (A : Type) : Type :=
| Done (a : A)
| Raise (e : JsError)
| Exit (code : Z)                                                (* [process.exit(code)] *)
| Log (logger : Value) (level : Level) (args : list LogArg) (k : Script A)
| Do (c : Call) (k : JsError + Answer c -> Script A).
Global Arguments Done {A} a.
Global Arguments Raise {A} e.
Global Arguments Exit {A} code.
Global Arguments Log {A} logger level args k.
Global Arguments Do {A} c k.

Fixpoint Script_bind {A B : Type} (p : Script A) (f : A -> Script B) : Script B :=
  match p with
  | Done a => f a
  | Raise e => Raise e
  | Exit code => Exit code
  | Log logger level args k => Log logger level args (Script_bind k f)
  | Do c k => Do c (fun r => Script_bind (k r) f)
  end.

#[global] Instance Script_ret : MRet Script := fun A a => Done a.
#[global] Instance Script_mbind : MBind Script := fun A B f p => Script_bind p f.

(** [try { p } catch (error) { handler(error) }]; [process.exit] inside
    [p] ends the process, it is not caught. *)
Fixpoint try_catch {A : Type} (p : Script A) (handler : JsError -> Script A) : Script A :=
  match p with
  | Done a => Done a
  | Raise e => handler e
  | Exit code => Exit code
  | Log logger level args k => Log logger level args (try_catch k handler)
  | Do c k => Do c (fun r => try_catch (k r) handler)
  end.

(** A call whose exception is passed on. *)
Definition call (c : Call) : Script (Answer c) :=
  Do c (fun r => match r with inl e => Raise e | inr a => Done a end).

Definition log (logger : Value) (level : Level) (args : list LogArg) : Script unit :=
  Log logger level args (Done tt).

Definition process_exit (code : Z) : Script unit := Exit code.

(** The host of a run of the script: what it answers to the [n]-th call. *)
Record Host : Type := { answers : nat -> forall c : Call, JsError + Answer c }.

(** What a run leaves behind: its lines of log and its calls, with what a
    call threw if it threw. *)
Inductive Entry : Type :=
| Logged (logger : Value) (level : Level) (args : list LogArg)
| Called (c : Call) (threw : option JsError).

Inductive Ending (A : Type) : Type :=
| Finished (a : A)
| Failed (e : JsError)
| Exited (code : Z).
Global Arguments Finished {A} a.
Global Arguments Failed {A} e.
Global Arguments Exited {A} code.

Record Played (A : Type) : Type := { ending : Ending A; trace : list Entry }.
Global Arguments ending {A} p.
Global Arguments trace {A} p.

Definition thrownBy {A : Type} (r : JsError + A) : option JsError :=
  match r with
  | inl e => Some e
  | inr _ => None
  end.

(** The run of a script whose first call is the [n]-th of the host. *)
Fixpoint play {A : Type} (h : Host) (n : nat) (p : Script A) : Played A :=
  match p with
  | Done a => {| ending := Finished a; trace := [] |}
  | Raise e => {| ending := Failed e; trace := [] |}
  | Exit code => {| ending := Exited code; trace := [] |}
  | Log logger level args k =>
      let r := play h n k in
      {| ending := ending r; trace := Logged logger level args :: trace r |}
  | Do c k =>
      let a := answers h n c in
      let r := play h (S n) (k a) in
      {| ending := ending r; trace := Called c (thrownBy a) :: trace r |}
  end.

(** The character of the double quote. *)
Definition dquote : string :=
  String (Ascii.Ascii false true false false false true false false) EmptyString.

Definition SERIES_TABLE : string := "series".
Definition SEASONS_TABLE : string := "seasons".
Definition EPISODES_TABLE : string := "episodes".

Definition optional (name : string) (typeId : PrimitiveTypeId) : Building :=
  withColumn {| column_name := name; column_type := optionalType typeId |}.

Definition createTables (session : Value) : Script unit :=
  call (createTable session SERIES_TABLE
          [optional "series_id" UINT64;
           optional "title" UTF8;
           optional "series_info" UTF8;
           optional "release_date" DATE;
           withPrimaryKey "series_id"]);;
  call (createTable session SEASONS_TABLE
          [optional "series_id" UINT64;
           optional "season_id" UINT64;
           optional "title" UTF8;
           optional "first_aired" DATE;
           optional "last_aired" DATE;
           withPrimaryKeys ["series_id"; "season_id"]]);;
  call (createTable session EPISODES_TABLE
          [optional "series_id" UINT64;
           optional "season_id" UINT64;
           optional "episode_id" UINT64;
           optional "title" UTF8;
           optional "air_date" DATE;
           withPrimaryKeys ["series_id"; "season_id"; "episode_id"]]).

(** The text of the query of [fillTablesWithData]. *)
Definition fillQuery (tablePathPrefix : string) : string :=
  ("
PRAGMA TablePathPrefix("
   ++ dquote
   ++ tablePathPrefix
   ++ dquote
   ++ ");

DECLARE $seriesData AS "
   ++ dquote
   ++ "List<Struct<
    series_id: Uint64,
    title: Utf8,
    series_info: Utf8,
    release_date: Utf8>>"
   ++ dquote
   ++ ";
DECLARE $seasonsData AS "
   ++ dquote
   ++ "List<Struct<
    series_id: Uint64,
    season_id: Uint64,
    title: Utf8,
    first_aired: Utf8,
    last_aired: Utf8>>"
   ++ dquote
   ++ ";
DECLARE $episodesData AS "
   ++ dquote
   ++ "List<Struct<
    series_id: Uint64,
    season_id: Uint64,
    episode_id: Uint64,
    title: Utf8,
    air_date: Utf8>>"
   ++ dquote
   ++ ";

REPLACE INTO "
   ++ SERIES_TABLE
   ++ "
SELECT
    series_id,
    title,
    series_info,
    CAST(release_date as Date) as release_date 
FROM AS_TABLE($seriesData);

REPLACE INTO "
   ++ SEASONS_TABLE
   ++ "
SELECT
    series_id,
    season_id,
    title,
    CAST(first_aired as Date) as first_aired,
    CAST(last_aired as Date) as last_aired
FROM AS_TABLE($seasonsData);

REPLACE INTO "
   ++ EPISODES_TABLE
   ++ "
SELECT
    series_id,
    season_id,
    episode_id,
    title,
    CAST(air_date as Date) as air_date
FROM AS_TABLE($episodesData);")%string.

Definition fillTablesWithData (tablePathPrefix : string) (session logger : Value)
  : Script unit :=
  log logger info [message "Preparing query..."];;
  let query := fillQuery tablePathPrefix in
  preparedQuery ← call (prepareQuery session query);
  log logger info [message "Query has been prepared, executing..."];;
  seriesData ← call getSeriesData;
  seasonsData ← call getSeasonsData;
  episodesData ← call getEpisodesData;
  call (executeQuery session (prepared preparedQuery)
          (Some [("$seriesData", seriesData);
                 ("$seasonsData", seasonsData);
                 ("$episodesData", episodesData)]));;
  mret tt.

(** The text of the query of [selectSimple]. *)
Definition selectQuery (tablePathPrefix : string) : string :=
  ("
PRAGMA TablePathPrefix("
   ++ dquote
   ++ tablePathPrefix
   ++ dquote
   ++ ");
SELECT series_id, title, series_info, release_date
FROM "
   ++ SERIES_TABLE
   ++ "
WHERE series_id = 1;")%string.

Definition selectSimple (tablePathPrefix : string) (session : Value) : Script Value :=
  let query := selectQuery tablePathPrefix in
  resultSets ← call (executeQuery session (text query) None);
  call (createNativeObjects (resultSets !! 0%nat)).

(** The functions handed to [withSession], called with a session. *)
Definition callback (f : Callback) (session : Value) : Script unit :=
  match f with
  | preparing logger dbName =>
      log logger info [message "Dropping old tables..."];;
      call (dropTable session SERIES_TABLE);;
      call (dropTable session EPISODES_TABLE);;
      call (dropTable session SEASONS_TABLE);;
      log logger info [message "Creating tables..."];;
      createTables session;;
      log logger info [message "Tables have been created, inserting data..."];;
      fillTablesWithData dbName session logger;;
      log logger info [message "The data has been inserted"]
  | selecting logger dbName =>
      result ← selectSimple dbName session;
      log logger info [message "selectSimple result:"; shown result]
  end.

Definition run (logger : Value) (entryPoint dbName : string) : Script unit :=
  authService ← call getCredentialsFromEnv;
  log logger info [message "Driver initializing..."];;
  driver ← call (Driver_new entryPoint dbName authService);
  let timeout := 10000 in
  isReady ← call (ready driver timeout);
  (if negb isReady then
     log logger fatal [message "Driver has not become ready in 10000ms!"];;
     process_exit 1
   else mret tt);;
  call (withSession driver (preparing logger dbName));;
  log logger info [message "Making a simple select..."];;
  call (withSession driver (selecting logger dbName));;
  log logger info [message "Testing scheme client capabilities..."];;
  call (makeDirectory driver "example-path");;
  call (makeDirectory driver "example-path/subpath");;
  call (modifyPermissions driver "example-path/subpath"
          [{| subject := "tsufiev@staff"; permissionNames := ["read"; "use"] |}]);;
  entry ← call (describePath driver "example-path");
  children ← call (listDirectory driver "example-path");
  entryText ← call (JSON_stringify entry);
  log logger info [message ("Created path: " ++ entryText)%string];;
  childrenText ← call (JSON_stringify children);
  log logger info [message ("Path contents: " ++ childrenText)%string];;
  call (removeDirectory driver "example-path/subpath");;
  call (removeDirectory driver "example-path");;
  call (destroy driver).

(** An argument of the command line that is there and not empty. *)
Definition given (argument : option string) : bool :=
  match argument with
  | Some s => truthy s
  | None => false
  end.

Definition main (argv : list string) : Script unit :=
  let entryPoint := argv !! 2%nat in
  let dbName := argv !! 3%nat in
  logger ← call (getLogger "debug");
  (if negb (given entryPoint) then
     log logger fatal [message "Cluster entry-point is missing, cannot run further!"];;
     process_exit 1
   else if negb (given dbName) then
     log logger fatal [message "Database name is missing, cannot run further!"];;
     process_exit 1
   else
     log logger info
       [message ("Running basic-example script against entry-point '"
                 ++ default "" entryPoint ++ "' and database '"
                 ++ default "" dbName ++ "'.")%string]);;
  try_catch (run logger (default "" entryPoint) (default "" dbName))
    (fun error_ => log logger error [thrown error_]).

(** ** Notions used to state the properties of the script *)

(** A script that handles no exception and raises none of its own: what a
    call throws is passed on. *)
Fixpoint uncaught {A : Type} (p : Script A) : Prop :=
  match p with
  | Done _ => True
  | Raise _ => False
  | Exit _ => True
  | Log _ _ _ k => uncaught k
  | Do c k => (forall e, k (inl e) = Raise e) /\ (forall a, uncaught (k (inr a)))
  end.

(** The call of an entry threw. *)
Definition threw (entry : Entry) : bool :=
  match entry with
  | Called _ (Some _) => true
  | _ => false
  end.

(** The calls by which [run] cleans up: removing a directory, destroying
    the driver. *)
Definition cleaning (entry : Entry) : bool :=
  match entry with
  | Called (removeDirectory _ _) _ => true
  | Called (destroy _) _ => true
  | _ => false
  end.

(** The driver was destroyed. *)
Definition destroyed (entry : Entry) : bool :=
  match entry with
  | Called (destroy _) None => true
  | _ => false
  end.

(** A session was asked for. *)
Definition sessionAsked (entry : Entry) : bool :=
  match entry with
  | Called (withSession _ _) _ => true
  | _ => false
  end.

(** What a host that never throws answers. *)
Definition obliging (ready_ : bool) (c : Call) : Answer c :=
  match c return Answer c with
  | getLogger _ => "logger"
  | getCredentialsFromEnv => "authService"
  | Driver_new _ _ _ => "driver"
  | ready _ _ => ready_
  | withSession _ _ => tt
  | dropTable _ _ => tt
  | createTable _ _ _ => tt
  | prepareQuery _ _ => "query-1"
  | getSeriesData => "seriesData"
  | getSeasonsData => "seasonsData"
  | getEpisodesData => "episodesData"
  | executeQuery _ _ _ => ["resultSet"]
  | createNativeObjects _ => "series"
  | makeDirectory _ _ => tt
  | modifyPermissions _ _ _ => tt
  | describePath _ _ => "entry"
  | listDirectory _ _ => "children"
  | removeDirectory _ _ => tt
  | destroy _ => tt
  | JSON_stringify v => v
  end.

(** The host that answers every call; its driver is ready or not. *)
Definition hostReady (ready_ : bool) : Host :=
  {| answers := fun _ c => inr (obliging ready_ c) |}.

(** The host whose [n]-th call throws [e], and that answers the others. *)
Definition hostFailingAt (n : nat) (e : JsError) : Host :=
  {| answers := fun m c => if Nat.eqb m n then inl e else inr (obliging true c) |}.
End BasicExample.

(** * Lemmas *)

(** The outcomes of a race, down to whether the token of a response is
    missing, empty or not. *)
Ltac by_outcome o := destruct o as [|[[[|? ?]|]]|?].

(** ** Rounding of timestamps *)

Lemma Math_round_toSeconds (dt : DateTime) :
  Math_round (toSeconds dt) = (dt + 500) / 1000.
Proof.
  unfold Math_round, toSeconds, Qfloor, Qplus. cbn [Qnum Qden].
  change (Z.pos (1000 * 2)) with (2 * 1000).
  replace (dt * 2 + 1 * 1000) with (2 * (dt + 500)) by lia.
  rewrite Z.div_mul_cancel_l by lia. reflexivity.
Qed.

Lemma Math_round_plus_hour (dt : DateTime) :
  Math_round (toSeconds (plus dt IamAuthService.jwtExpirationTimeout))
  = Math_round (toSeconds dt) + 3600.
Proof.
  rewrite !Math_round_toSeconds. unfold plus, IamAuthService.jwtExpirationTimeout.
  replace (dt + 3600 * 1000 + 500) with (dt + 500 + 3600 * 1000) by lia.
  rewrite Z.div_add by lia. reflexivity.
Qed.

(** ** The building of the metadata *)

Lemma makeCredentialsMetadata_ticket (token : string) :
  makeCredentialsMetadata token = ticket token.
Proof.
  unfold makeCredentialsMetadata, Metadata_add, Metadata_new, ticket.
  change (normalizeKey "x-ydb-auth-ticket") with (@inr JsError string "x-ydb-auth-ticket").
  unfold validate.
  change (metadataKeyIsBinary "x-ydb-auth-ticket") with false.
  destruct (metadataNonbinValueIsLegal token); reflexivity.
Qed.

Lemma makeCredentialsMetadata_inr (token : string) (metadata : Metadata) :
  makeCredentialsMetadata token = inr metadata ->
  metadataNonbinValueIsLegal token = true
  /\ metadata = [("x-ydb-auth-ticket", token)].
Proof.
  rewrite makeCredentialsMetadata_ticket. unfold ticket.
  destruct (metadataNonbinValueIsLegal token); [|discriminate].
  intros H. injection H as <-. split; reflexivity.
Qed.

Lemma makeCredentialsMetadata_inl (token : string) (err : JsError) :
  makeCredentialsMetadata token = inl err ->
  metadataNonbinValueIsLegal token = false /\ err = illegalValue token.
Proof.
  rewrite makeCredentialsMetadata_ticket. unfold ticket.
  destruct (metadataNonbinValueIsLegal token); [discriminate|].
  intros H. injection H as <-. split; reflexivity.
Qed.

(** ** Runs of sequenced methods *)

Section RunFacts.
Context {O : Type}.

Lemma andThen_logged {A B : Type} (e : Effect) (r : Run O A) (f : A -> O -> Run O B) :
  andThen (logged e r) f = logged e (andThen r f).
Proof. unfold andThen, logged; cbn. destruct (result r); reflexivity. Qed.

Lemma run_bind {A B : Type} (w : World) (p : Prog O A) (f : A -> Prog O B) (o : O) :
  run w (p ≫= f) o = andThen (run w p o) (fun a o' => run w (f a) o').
Proof.
  unfold mbind, Prog_bind. revert o.
  induction p as [a|e|k IH|g k IH|site k IH|payload key options k IH
                  |ms k IH|jwt k IH|k IH|k IH]; intros o; cbn [bind run].
  - unfold andThen; cbn. destruct (run w (f a) o); reflexivity.
  - reflexivity.
  - apply IH.
  - apply IH.
  - apply IH.
  - rewrite IH, andThen_logged. reflexivity.
  - rewrite IH, andThen_logged. reflexivity.
  - rewrite IH, andThen_logged. reflexivity.
  - apply IH.
  - apply IH.
Qed.

Lemma run_evaluate {A : Type} (w : World) (r : JsError + A) (o : O) :
  run w (evaluate r) o = {| result := r; final := o; effects := [] |}.
Proof. destruct r; reflexivity. Qed.

Lemma stretch_evaluate {A : Type} (e : Env) (r : JsError + A) (o : O) :
  stretch e (evaluate r) o = {| reached := Ended r; after := o; emitted := [] |}.
Proof. destruct r; reflexivity. Qed.

(** A run made alone is its stretches one after the other. *)
Lemma run_stretch {A : Type} (w : World) (p : Prog O A) (o : O) :
  run w p o =
    let s := stretch w p o in
    match reached s with
    | Ended r => {| result := r; final := after s; effects := emitted s |}
    | Racing k =>
        let r := run w (k (race w)) (after s) in
        {| result := result r; final := final r; effects := emitted s ++ effects r |}
    | Ticking k =>
        let r := run w k (after s) in
        {| result := result r; final := final r; effects := emitted s ++ effects r |}
    end.
Proof.
  revert o.
  induction p as [a|e|k IH|g k IH|site k IH|payload key options k IH
                  |ms k IH|jwt k IH|k IH|k IH]; intros o; cbn [run stretch];
    try reflexivity; try apply IH.
  - rewrite IH. cbn. destruct (reached _); reflexivity.
  - rewrite IH. cbn. destruct (reached _); reflexivity.
  - rewrite IH. cbn. destruct (reached _); reflexivity.
  - cbn. destruct (run w (k (race w)) o); reflexivity.
  - cbn. destruct (run w k o); reflexivity.
Qed.
End RunFacts.

(** ** The methods of [IamAuthService], run alone *)

Lemma run_expired (w : World) (self : IamAuthService.t) :
  run w IamAuthService.expired self =
    {| result := inr (stale (utc w InExpired) self); final := self; effects := [] |}.
Proof.
  unfold IamAuthService.expired, stale. cbn.
  destruct (IamAuthService.tokenTimestamp self); reflexivity.
Qed.

Lemma run_getJwtRequest (w : World) (self : IamAuthService.t) :
  run w IamAuthService.getJwtRequest self =
    let now := utc w InGetJwtRequest in
    {| result := sign w (payloadAt now self) (keyOf self) (optionsOf self);
       final := self;
       effects := [Signing (payloadAt now self) (keyOf self) (optionsOf self)] |}.
Proof.
  unfold IamAuthService.getJwtRequest, payloadAt, optionsOf, keyOf.
  cbn -[Math_round toSeconds plus].
  rewrite Math_round_plus_hour.
  destruct (sign w _ _ _); reflexivity.
Qed.

Lemma run_updateToken (w : World) (self : IamAuthService.t) :
  run w IamAuthService.updateToken self = refresh w self.
Proof.
  unfold IamAuthService.updateToken, IamAuthService.sendTokenRequest.
  rewrite !run_bind. cbn [run setTimeout andThen logged result final effects].
  rewrite run_bind, run_getJwtRequest. unfold refresh, andThen. cbn -[payloadAt].
  destruct (sign w _ _ _) as [e|jwt]; cbn; [reflexivity|].
  by_outcome (race w); reflexivity.
Qed.

Lemma run_getAuthMetadata (w : World) (self : IamAuthService.t) :
  run w IamAuthService.getAuthMetadata self =
    if stale (utc w InExpired) self
    then andThen (refresh w self) (fun _ self' => answer self')
    else answer self.
Proof.
  unfold IamAuthService.getAuthMetadata.
  rewrite run_bind, run_expired. unfold andThen at 1. cbn [result final effects].
  assert (Hanswer : forall o : IamAuthService.t,
             run w (self ← this;
                    evaluate (makeCredentialsMetadata (IamAuthService.token self))) o
             = answer o) by (intros o; apply (run_evaluate (O := IamAuthService.t))).
  destruct (stale _ _).
  - rewrite !run_bind, run_updateToken. unfold andThen.
    cbn [result final effects run awaitTick app].
    destruct (refresh w self) as [[e|[]] self' effs]; cbn [result final effects app];
      [reflexivity|].
    rewrite Hanswer, !app_nil_r. reflexivity.
  - rewrite run_bind. unfold andThen. cbn [run mret Prog_ret result final effects app].
    rewrite Hanswer. reflexivity.
Qed.

Lemma run_static (w : World) (self : TokenAuthService.t) :
  run w TokenAuthService.getAuthMetadata self
  = {| result := ticket (TokenAuthService.token self); final := self; effects := [] |}.
Proof.
  rewrite <- makeCredentialsMetadata_ticket.
  apply (run_evaluate (O := TokenAuthService.t)).
Qed.

Lemma run_cached (w : World) (self : IamAuthService.t) (issuedAt : DateTime) :
  IamAuthService.tokenTimestamp self = Some issuedAt ->
  diff (utc w InExpired) issuedAt <= IamAuthService.tokenExpirationTimeout ->
  run w IamAuthService.getAuthMetadata self = answer self.
Proof.
  intros Hts Hin. rewrite run_getAuthMetadata. unfold stale. rewrite Hts.
  unfold diff, IamAuthService.tokenExpirationTimeout in Hin.
  destruct (Z.gtb_spec (utc w InExpired - issuedAt) (120 * 1000)); [lia|reflexivity].
Qed.

Lemma signing_of_call (w : World) (self : IamAuthService.t)
    (payload : JwtPayload) (key : Buffer) (options : SignOptions) :
  In (Signing payload key options) (effects (run w IamAuthService.getAuthMetadata self)) ->
  payload = payloadAt (utc w InGetJwtRequest) self
  /\ key = keyOf self /\ options = optionsOf self.
Proof.
  rewrite run_getAuthMetadata. destruct (stale _ _); [|intros []].
  unfold refresh, andThen.
  assert (Hin : forall rest : list Effect,
             (forall e, In e rest -> is_request e = true) ->
             In (Signing payload key options)
                (Timer (10 * 1000)
                   :: Signing (payloadAt (utc w InGetJwtRequest) self) (keyOf self)
                        (optionsOf self) :: rest) ->
             payload = payloadAt (utc w InGetJwtRequest) self
             /\ key = keyOf self /\ options = optionsOf self).
  { intros rest Hrest [H|[H|H]]; [discriminate| |].
    - injection H as <- <- <-. auto.
    - apply Hrest in H. discriminate. }
  destruct (sign w _ _ _) as [e|jwt]; cbn [result effects].
  - apply Hin. intros e' [].
  - assert (Hreq : forall e, In e [Request jwt] -> is_request e = true)
      by (intros e [<-|[]]; reflexivity).
    by_outcome (race w); cbn; intros H;
      apply (Hin [Request jwt] Hreq); cbn; tauto.
Qed.

(** ** The stretches of [getAuthMetadata] *)

Lemma stretch_getAuthMetadata (e : Env) (self : IamAuthService.t) :
  stretch e IamAuthService.getAuthMetadata self =
    let payload := payloadAt (utc e InGetJwtRequest) self in
    let signing := Signing payload (keyOf self) (optionsOf self) in
    if stale (utc e InExpired) self then
      match sign e payload (keyOf self) (optionsOf self) with
      | inl err =>
          {| reached := Ended (inl err); after := self;
             emitted := [Timer (10 * 1000); signing] |}
      | inr jwt =>
          {| reached := Racing afterRace; after := self;
             emitted := [Timer (10 * 1000); signing; Request jwt] |}
      end
    else {| reached := Ended (makeCredentialsMetadata (IamAuthService.token self));
            after := self; emitted := [] |}.
Proof.
  unfold IamAuthService.getAuthMetadata, IamAuthService.expired, stale.
  cbn -[Math_round toSeconds plus Z.gtb Z.mul diff makeCredentialsMetadata evaluate].
  destruct (IamAuthService.tokenTimestamp self) as [ts|];
    cbn -[Math_round toSeconds plus Z.gtb Z.mul diff makeCredentialsMetadata evaluate].
  1: change (diff (utc e InExpired) ts >? IamAuthService.tokenExpirationTimeout)
       with (utc e InExpired - ts >? 120 * 1000);
     destruct (utc e InExpired - ts >? 120 * 1000);
     cbn -[Math_round toSeconds plus Z.gtb Z.mul diff makeCredentialsMetadata evaluate];
     [|apply (stretch_evaluate (O := IamAuthService.t))].
  all: rewrite Math_round_plus_hour; unfold payloadAt, keyOf, optionsOf;
       destruct (sign e _ _ _); reflexivity.
Qed.

Lemma stretch_afterRace (e : Env) (outcome : RaceOutcome) (self : IamAuthService.t) :
  stretch e (afterRace outcome) self =
    match outcome with
    | TimerFirst => {| reached := Ended (inl TimedReject); after := self; emitted := [] |}
    | Rejected reason =>
        {| reached := Ended (inl (ApiError reason)); after := self; emitted := [] |}
    | Fulfilled response =>
        match iamToken response with
        | Some (String _ _ as token) =>
            {| reached := Ticking respond;
               after := IamAuthService.set_tokenTimestamp (Some (utc e InUpdateToken))
                          (IamAuthService.set_token token self);
               emitted := [] |}
        | _ =>
            {| reached := Ended (inl (Error "Received empty token from IAM!"));
               after := self; emitted := [] |}
        end
    end.
Proof.
  destruct outcome as [|[[[|c tok]|]]|reason]; reflexivity.
Qed.

Lemma stretch_respond (e : Env) (self : IamAuthService.t) :
  stretch e respond self =
    {| reached := Ended (makeCredentialsMetadata (IamAuthService.token self));
       after := self; emitted := [] |}.
Proof. apply (stretch_evaluate (O := IamAuthService.t)). Qed.

(** ** Calls in flight *)

Lemma step_shaped (e : Env) (ev : Event) (l : Loop IamAuthService.t Metadata) :
  Forall shaped (calls l) ->
  Forall shaped (calls (step IamAuthService.getAuthMetadata e ev l)).
Proof.
  intros Hcalls. destruct ev as [|ms|c outcome|c]; cbn [step].
  - rewrite stretch_getAuthMetadata. cbn zeta.
    destruct (stale _ _); [destruct (sign e _ _ _) as [err|jwt]|];
      cbn [calls]; apply Forall_app; (split; [exact Hcalls|]);
      (constructor; [|constructor]); unfold place; cbn; auto.
  - destruct (0 <=? ms); assumption.
  - destruct (calls l !! c) as [[armed delay k|k|r]|] eqn:Hc; try assumption.
    pose proof (Forall_lookup_1 _ _ _ _ Hcalls Hc) as [_ ->].
    destruct outcome as [|response|reason];
      [destruct (due armed delay (clock l)); [|assumption]| |];
      cbn [calls]; apply Forall_insert; try exact Hcalls; right; eexists; reflexivity.
  - destruct (calls l !! c) as [[armed delay k|k|r]|] eqn:Hc; try assumption.
    cbn [calls]. apply Forall_insert; [exact Hcalls|].
    pose proof (Forall_lookup_1 _ _ _ _ Hcalls Hc) as [->|[outcome ->]].
    + rewrite stretch_respond. exact I.
    + rewrite stretch_afterRace.
      destruct outcome as [|[[[|ch tok]|]]|reason]; unfold place; cbn; auto.
Qed.

Lemma exec_shaped (sched : list (Env * Event)) (l : Loop IamAuthService.t Metadata) :
  Forall shaped (calls l) ->
  Forall shaped (calls (exec IamAuthService.getAuthMetadata sched l)).
Proof.
  revert l. induction sched as [|[e ev] sched IH]; intros l Hl; cbn [exec]; [exact Hl|].
  apply IH, step_shaped, Hl.
Qed.

Lemma reachable_shaped (self0 : IamAuthService.t) (sched : list (Env * Event)) :
  Forall shaped (calls (exec IamAuthService.getAuthMetadata sched (start self0))).
Proof. apply exec_shaped. constructor. Qed.

(** What one event does to the object: nothing, or the token and the
    timestamp of one response, both. *)
Lemma step_self (e : Env) (ev : Event) (l : Loop IamAuthService.t Metadata) :
  Forall shaped (calls l) ->
  let l' := step IamAuthService.getAuthMetadata e ev l in
  self l' = self l
  \/ exists c response ch tok,
       ev = Microtask c
       /\ calls l !! c = Some (Queued (afterRace (Fulfilled response)))
       /\ iamToken response = Some (String ch tok)
       /\ self l' = IamAuthService.set_tokenTimestamp (Some (utc e InUpdateToken))
                      (IamAuthService.set_token (String ch tok) (self l))
       /\ calls l' = <[c := Queued respond]> (calls l).
Proof.
  intros Hcalls. cbn zeta. destruct ev as [|ms|c outcome|c]; cbn [step].
  - rewrite stretch_getAuthMetadata. cbn zeta.
    destruct (stale _ _); [destruct (sign e _ _ _)|]; left; reflexivity.
  - destruct (0 <=? ms); left; reflexivity.
  - destruct (calls l !! c) as [[armed delay k|k|r]|]; try (left; reflexivity).
    destruct outcome; [destruct (due _ _ _)| |]; left; reflexivity.
  - destruct (calls l !! c) as [[armed delay k|k|r]|] eqn:Hc; try (left; reflexivity).
    pose proof (Forall_lookup_1 _ _ _ _ Hcalls Hc) as [->|[outcome ->]].
    + rewrite stretch_respond. left; reflexivity.
    + rewrite stretch_afterRace.
      destruct outcome as [|[[[|ch tok]|]]|reason]; try (left; reflexivity).
      right. exists c, {| iamToken := Some (String ch tok) |}, ch, tok.
      cbn [self after calls].
      split; [reflexivity|]. split; [exact Hc|]. split; [reflexivity|].
      split; reflexivity.
Qed.

Lemma exec_app (sched sched' : list (Env * Event)) (l : Loop IamAuthService.t Metadata) :
  exec IamAuthService.getAuthMetadata (sched ++ sched') l
  = exec IamAuthService.getAuthMetadata sched' (exec IamAuthService.getAuthMetadata sched l).
Proof.
  revert l. induction sched as [|[e ev] sched IH]; intros l; cbn; [reflexivity|apply IH].
Qed.

(** Once set, the timestamp is never null again; on an object that starts
    without one it is null exactly as long as no event has changed the
    object. *)
Lemma unissued_history (self0 : IamAuthService.t) (sched : list (Env * Event)) :
  IamAuthService.tokenTimestamp self0 = None ->
  IamAuthService.tokenTimestamp
    (self (exec IamAuthService.getAuthMetadata sched (start self0))) = None
  <-> forall before after,
        sched = before ++ after ->
        self (exec IamAuthService.getAuthMetadata before (start self0)) = self0.
Proof.
  intros Hnone. split.
  - induction sched as [|[e ev] sched IH] using rev_ind; intros Hts before rest Heq.
    + symmetry in Heq. apply app_eq_nil in Heq as [-> _]. reflexivity.
    + rewrite exec_app in Hts. cbn [exec] in Hts.
      destruct (step_self e ev _ (reachable_shaped self0 sched))
        as [Hsame|(c & response & ch & tok & _ & _ & _ & Hself & _)];
        [|rewrite Hself in Hts; discriminate].
      rewrite Hsame in Hts. specialize (IH Hts).
      destruct rest as [|x rest _] using rev_ind.
      * rewrite app_nil_r in Heq. subst before.
        rewrite exec_app. cbn [exec]. rewrite Hsame. apply (IH sched []).
        symmetry. apply app_nil_r.
      * rewrite app_assoc in Heq. apply app_inj_tail in Heq as [Heq _].
        apply (IH before rest Heq).
  - intros H. rewrite (H sched []) by (symmetry; apply app_nil_r). exact Hnone.
Qed.

Lemma inFlight_mono (self self' : IamAuthService.t) (c : Call IamAuthService.t Metadata) :
  (IamAuthService.tokenTimestamp self <> None ->
   IamAuthService.tokenTimestamp self' <> None) ->
  inFlight self c -> inFlight self' c.
Proof.
  intros Hmono. destruct c as [armed delay k|k|[err|md]]; cbn; auto.
  intros [[-> Hts]|Hrace]; auto.
Qed.

(** The answer built from a token that is not empty is the answer of a
    call in flight. *)
Lemma inFlight_answer (self : IamAuthService.t) (token : string) :
  token <> "" -> inFlight self (Returned (makeCredentialsMetadata token)).
Proof.
  intros Htoken. destruct (makeCredentialsMetadata token) as [err|metadata] eqn:Hmake;
    cbn; [exact I|].
  apply makeCredentialsMetadata_inr in Hmake as [_ ->]. exists token. auto.
Qed.

Lemma not_stale_issued (now : DateTime) (self : IamAuthService.t) :
  stale now self = false -> IamAuthService.tokenTimestamp self <> None.
Proof. unfold stale. destruct (IamAuthService.tokenTimestamp self); congruence. Qed.

(** One event keeps the object and its calls sound. *)
Lemma step_sound (e : Env) (ev : Event) (l : Loop IamAuthService.t Metadata) :
  sound l -> sound (step IamAuthService.getAuthMetadata e ev l).
Proof.
  intros [Htok Hcalls]. destruct ev as [|ms|c outcome|c]; cbn [step].
  - (* a new call *)
    rewrite stretch_getAuthMetadata. cbn zeta.
    destruct (stale _ _) eqn:Hstale; [destruct (sign e _ _ _) as [err|jwt]|];
      split; cbn [self calls after]; try exact Htok;
      apply Forall_app; (split; [exact Hcalls|]);
      (constructor; [|constructor]); unfold place; cbn [reached].
    + exact I.
    + split; reflexivity.
    + apply inFlight_answer, Htok. eapply not_stale_issued, Hstale.
  - (* time passes *)
    destruct (0 <=? ms); split; assumption.
  - (* the race of a call settles *)
    destruct (calls l !! c) as [[armed delay k|k|r]|] eqn:Hc; try (split; assumption).
    pose proof (Forall_lookup_1 _ _ _ _ Hcalls Hc) as [_ ->].
    destruct outcome as [|response|reason];
      [destruct (due armed delay (clock l)); [|split; assumption]| |];
      (split; cbn [self calls]; [exact Htok|]);
      apply Forall_insert; try exact Hcalls; right; eexists; reflexivity.
  - (* a call is resumed *)
    destruct (calls l !! c) as [[armed delay k|k|r]|] eqn:Hc; try (split; assumption).
    pose proof (Forall_lookup_1 _ _ _ _ Hcalls Hc) as [[-> Hts]|[outcome ->]].
    + rewrite stretch_respond. split; cbn [self calls after]; [exact Htok|].
      apply Forall_insert; [exact Hcalls|]. unfold place; cbn [reached].
      apply inFlight_answer, Htok, Hts.
    + rewrite stretch_afterRace.
      destruct outcome as [|[[[|ch tok]|]]|reason];
        try (split; cbn [self calls after]; [exact Htok|];
             apply Forall_insert; [exact Hcalls|exact I]).
      split; cbn [self calls after].
      * intros _. cbn. discriminate.
      * apply Forall_insert.
        -- eapply Forall_impl; [exact Hcalls|]. intros call. apply inFlight_mono.
           intros _. cbn. discriminate.
        -- unfold place; cbn. left. split; [reflexivity|discriminate].
Qed.

Lemma exec_sound (sched : list (Env * Event)) (l : Loop IamAuthService.t Metadata) :
  sound l -> sound (exec IamAuthService.getAuthMetadata sched l).
Proof.
  revert l. induction sched as [|[e ev] sched IH]; intros l Hl; cbn [exec]; [exact Hl|].
  apply IH, step_sound, Hl.
Qed.

Lemma start_sound (self : IamAuthService.t) :
  tokenWithTimestamp self -> sound (start self).
Proof. intros H. split; [exact H|constructor]. Qed.

Lemma constructor_tokenWithTimestamp
    (super : string -> string -> ISslCredentials -> JsError + GrpcService)
    (authCredentials : IAuthCredentials.t) (self0 : IamAuthService.t) :
  IamAuthService.constructor super authCredentials = inr self0 ->
  IamAuthService.token self0 = "" /\ IamAuthService.tokenTimestamp self0 = None.
Proof.
  unfold IamAuthService.constructor. destruct (super _ _ _); [discriminate|].
  intros H. injection H as <-. split; reflexivity.
Qed.

Lemma timedOut_step (c : nat) (e : Env) (ev : Event) (l : Loop IamAuthService.t Metadata) :
  timedOut c l ->
  timedOut c (step IamAuthService.getAuthMetadata e ev l)
  /\ (notSettling c (e, ev) = false -> step IamAuthService.getAuthMetadata e ev l = l).
Proof.
  intros Hc. destruct ev as [|ms|c' outcome|c']; cbn [step notSettling snd].
  - split; [|discriminate]. unfold timedOut in *. cbn [calls].
    destruct Hc as [Hc|Hc]; [left|right];
      (rewrite lookup_app_l; [exact Hc|eapply lookup_lt_Some, Hc]).
  - split; [|discriminate]. destruct (0 <=? ms); exact Hc.
  - destruct (Nat.eqb_spec c' c) as [->|Hne]; cbn [negb].
    + assert (Hsame : match calls l !! c with
                      | Some (Waiting _ _ _) => False
                      | _ => True
                      end) by (destruct Hc as [-> | ->]; exact I).
      destruct (calls l !! c) as [[armed delay k|k|r]|]; try contradiction;
        split; auto.
    + split; [|discriminate].
      destruct (calls l !! c') as [[armed delay k|k|r]|]; try exact Hc.
      destruct outcome; [destruct (due _ _ _); [|exact Hc]| |];
        unfold timedOut in *; cbn [calls];
        rewrite list_lookup_insert_ne by exact Hne; exact Hc.
  - split; [|discriminate].
    destruct (decide (c' = c)) as [->|Hne].
    + destruct Hc as [Hc|Hc]; rewrite Hc; [|right; exact Hc].
      rewrite stretch_afterRace. right. cbn [calls place reached].
      apply list_lookup_insert_eq. eapply lookup_lt_Some, Hc.
    + destruct (calls l !! c') as [[armed delay k|k|r]|]; try exact Hc.
      unfold timedOut in *; cbn [calls].
      rewrite !list_lookup_insert_ne by exact Hne. exact Hc.
Qed.

Lemma timedOut_exec (c : nat) (sched : list (Env * Event))
    (l : Loop IamAuthService.t Metadata) :
  timedOut c l ->
  timedOut c (exec IamAuthService.getAuthMetadata sched l)
  /\ exec IamAuthService.getAuthMetadata sched l
     = exec IamAuthService.getAuthMetadata (List.filter (notSettling c) sched) l.
Proof.
  revert l. induction sched as [|[e ev] sched IH]; intros l Hc; cbn [exec List.filter].
  - split; [exact Hc|reflexivity].
  - destruct (timedOut_step c e ev l Hc) as [Hc' Hdrop].
    destruct (notSettling c (e, ev)).
    + cbn [exec]. apply IH, Hc'.
    + rewrite Hdrop by reflexivity. apply IH, Hc.
Qed.

(** A call in flight alone, whose race is settled as in [w] once the timer
    is due, ends as the run of the call in [w]. *)
Lemma lone_call (w : World) (self0 : IamAuthService.t) :
  let l := exec IamAuthService.getAuthMetadata
             [(env w, Invoke); (env w, Elapse IamAuthService.tokenRequestTimeout);
              (env w, Settle 0 (race w)); (env w, Microtask 0); (env w, Microtask 0)]
             (start self0) in
  let r := run w IamAuthService.getAuthMetadata self0 in
  self l = final r /\ calls l = [Returned (result r)] /\ log l = effects r.
Proof.
  cbn zeta. rewrite run_getAuthMetadata. cbn [exec].
  assert (H1 : step IamAuthService.getAuthMetadata w Invoke (start self0)
               = let s := stretch w IamAuthService.getAuthMetadata self0 in
                 {| self := after s; clock := 0; calls := [place 0 s]; log := emitted s |})
    by reflexivity.
  rewrite H1, stretch_getAuthMetadata. clear H1. cbn zeta. unfold refresh, andThen.
  destruct (stale _ _); [|lazy -[payloadAt keyOf optionsOf makeCredentialsMetadata]; auto].
  destruct (sign w _ _ _) as [err|jwt];
    [lazy -[payloadAt keyOf optionsOf makeCredentialsMetadata]; auto|].
  destruct (race w) as [|[[[|ch tok]|]]|reason] eqn:Hrace;
    try (lazy -[payloadAt keyOf optionsOf utc makeCredentialsMetadata]; auto).
  lazy -[payloadAt keyOf optionsOf utc makeCredentialsMetadata].
  destruct (makeCredentialsMetadata (String ch tok));
    lazy -[payloadAt keyOf optionsOf utc]; auto.
Qed.

(** * The properties of the specification *)

(** ** The staleness check *)

(** C1. The staleness check of [getAuthMetadata] is true exactly when
    [tokenTimestamp] is null or more than 120 seconds lie between it and
    the clock; it never fails and changes nothing. When it is true the call
    runs [updateToken] and then, unless that threw, builds the metadata from
    the token the object then holds; when it is false the call builds the
    metadata from the cached token at once, without a timer, an assertion or
    a request. Building the metadata is [makeCredentialsMetadata], which
    throws when gRPC refuses the token as a value. On an object that started without a
    timestamp, whatever calls were in flight since, [tokenTimestamp] is null
    exactly when no token was ever installed: the object is what it was at
    every point of its history. *)
Theorem staleness_check (w : World) (obj : IamAuthService.t) :
  let check := run w IamAuthService.expired obj in
  let call := run w IamAuthService.getAuthMetadata obj in
  (exists b, check = {| result := inr b; final := obj; effects := [] |})
  /\ (result check = inr true <->
        IamAuthService.tokenTimestamp obj = None
        \/ exists issuedAt, IamAuthService.tokenTimestamp obj = Some issuedAt
                            /\ utc w InExpired - issuedAt > 120 * 1000)
  /\ (result check = inr true <->
        call = andThen (run w IamAuthService.updateToken obj) (fun _ self' => answer self')
        /\ exists rest, effects call = Timer (10 * 1000) :: rest)
  /\ (result check = inr false <-> call = answer obj)
  /\ (forall self0 sched,
        IamAuthService.tokenTimestamp self0 = None ->
        obj = self (exec IamAuthService.getAuthMetadata sched (start self0)) ->
        IamAuthService.tokenTimestamp obj = None
        <-> forall before after,
              sched = before ++ after ->
              self (exec IamAuthService.getAuthMetadata before (start self0)) = self0).
Proof.
  cbn zeta. rewrite run_expired, run_getAuthMetadata, run_updateToken. cbn [result].
  split; [eauto|]. split; [|split; [|split]].
  - unfold stale. destruct (IamAuthService.tokenTimestamp obj) as [ts|].
    + split.
      * intros H. right. exists ts. split; [reflexivity|].
        injection H as H. apply Z.gtb_lt in H. lia.
      * intros [H|(ts' & H & Hgt)]; [discriminate|].
        injection H as <-. f_equal. apply Z.gtb_lt. lia.
    + split; [auto|reflexivity].
  - destruct (stale _ _).
    + split; [intros _|reflexivity]. split; [reflexivity|].
      unfold refresh, andThen.
      destruct (sign w _ _ _); [cbn; eauto|].
      by_outcome (race w); cbn; eauto.
    + split; [discriminate|]. intros [_ [rest Hrest]]. discriminate.
  - destruct (stale _ _) eqn:Hs.
    + split; [discriminate|]. intros H. exfalso.
      apply (f_equal effects) in H. revert H. unfold refresh, andThen.
      destruct (sign w _ _ _); [discriminate|].
      by_outcome (race w); discriminate.
    + split; reflexivity.
  - intros self0 sched Hnone ->. apply unissued_history, Hnone.
Qed.

(** ** Calls answered from the cache *)

(** C2, as stated, fails for a token gRPC refuses as a metadata value. The
    refresh at time 1000 that is answered with ["t1"] followed by a line
    feed succeeds: the object holds that token and the timestamp 1000. The
    call made at 60000, within the threshold, sends nothing and changes
    nothing, but it returns no metadata: [Metadata.add] throws. *)
Lemma cached_call_with_refused_token :
  let refreshed := run (worldAt 1000 (Some refusedToken)) IamAuthService.updateToken unissued in
  let self := final refreshed in
  let r := run (worldAt 60000 None) IamAuthService.getAuthMetadata self in
  result refreshed = inr tt
  /\ requests (effects refreshed) = 1%nat
  /\ IamAuthService.token self = refusedToken
  /\ IamAuthService.tokenTimestamp self = Some 1000
  /\ diff (utc (worldAt 60000 None) InExpired) 1000 <= IamAuthService.tokenExpirationTimeout
  /\ result r = inl (illegalValue refusedToken)
  /\ result r <> inr [("x-ydb-auth-ticket", refusedToken)]
  /\ effects r = [] /\ final r = self.
Proof. vm_compute. repeat split; discriminate. Qed.

(** C2, amended. On an object whose token was issued at [issuedAt], every
    call of a sequence made while the clock is within the staleness
    threshold of [issuedAt] arms no timer, signs nothing, sends no request
    and leaves the object, so its token and its timestamp, as it was. It
    returns the metadata with the cached token under [x-ydb-auth-ticket]
    when the token is made of printable ASCII characters; otherwise it fails
    with the error of [Metadata.add]. *)
Theorem cached_calls (self : IamAuthService.t) (issuedAt : DateTime) (ws : list World) :
  IamAuthService.tokenTimestamp self = Some issuedAt ->
  Forall (fun w : World =>
            diff (utc w InExpired) issuedAt <= IamAuthService.tokenExpirationTimeout) ws ->
  length (IamAuthService.calls ws self) = length ws
  /\ Forall (fun r : Run IamAuthService.t Metadata =>
               (metadataNonbinValueIsLegal (IamAuthService.token self) = true ->
                result r = inr [("x-ydb-auth-ticket", IamAuthService.token self)])
               /\ (metadataNonbinValueIsLegal (IamAuthService.token self) = false ->
                   result r = inl (illegalValue (IamAuthService.token self)))
               /\ effects r = []
               /\ requests (effects r) = 0%nat
               /\ IamAuthService.token (final r) = IamAuthService.token self
               /\ IamAuthService.tokenTimestamp (final r) = Some issuedAt
               /\ final r = self)
            (IamAuthService.calls ws self).
Proof.
  intros Hts Hws. induction Hws as [|w ws Hw Hws IH]; cbn [IamAuthService.calls].
  - split; [reflexivity|constructor].
  - rewrite (run_cached w self issuedAt Hts Hw). cbn [final answer].
    destruct IH as [IHlen IHall]. split; [cbn; congruence|].
    constructor; [|exact IHall]. cbn [result effects final answer].
    rewrite makeCredentialsMetadata_ticket. unfold ticket.
    split; [intros ->; reflexivity|]. split; [intros ->; reflexivity|].
    cbn. auto 10.
Qed.

(** The object left by a refresh at time 1000 that was answered with ["t1"],
    called again at 1000, 60000 and 121000. *)
Lemma cached_calls_witness :
  let self := final (run (worldAt 1000 (Some "t1")) IamAuthService.getAuthMetadata unissued) in
  let ws := [worldAt 1000 None; worldAt 60000 None; worldAt 121000 None] in
  IamAuthService.tokenTimestamp self = Some 1000
  /\ length (IamAuthService.calls ws self) = 3%nat
  /\ map result (IamAuthService.calls ws self)
     = [inr [("x-ydb-auth-ticket", "t1")]; inr [("x-ydb-auth-ticket", "t1")];
        inr [("x-ydb-auth-ticket", "t1")]].
Proof.
  cbn zeta. split; [reflexivity|].
  pose proof (cached_calls
                (final (run (worldAt 1000 (Some "t1")) IamAuthService.getAuthMetadata unissued))
                1000
                [worldAt 1000 None; worldAt 60000 None; worldAt 121000 None]
                eq_refl) as H.
  destruct H as [Hlen _].
  - repeat constructor; vm_compute; discriminate.
  - split; [exact Hlen|reflexivity].
Defined.

(** ** An exchange answered without a token *)

(** C3. When a stale object's request is answered with no token or with the
    empty token, the call fails with the error of the empty token and the
    object is exactly as before: the token and the timestamp are those from
    before the attempt, and the staleness check of any later call gives what
    it would have given without the attempt. *)
Theorem empty_token_response
    (w : World) (self : IamAuthService.t) (jwt : string)
    (response : ICreateIamTokenResponse) :
  result (run w IamAuthService.expired self) = inr true ->
  result (run w IamAuthService.getJwtRequest self) = inr jwt ->
  race w = Fulfilled response ->
  iamToken response = None \/ iamToken response = Some "" ->
  let call := run w IamAuthService.getAuthMetadata self in
  result call = inl (Error "Received empty token from IAM!")
  /\ final call = self
  /\ IamAuthService.token (final call) = IamAuthService.token self
  /\ IamAuthService.tokenTimestamp (final call) = IamAuthService.tokenTimestamp self
  /\ requests (effects call) = 1%nat
  /\ forall w', run w' IamAuthService.expired (final call) = run w' IamAuthService.expired self.
Proof.
  rewrite run_expired, run_getJwtRequest. cbn [result]. intros Hstale Hsign Hrace Hempty.
  cbn zeta. rewrite run_getAuthMetadata. injection Hstale as ->.
  unfold refresh, andThen. rewrite Hsign, Hrace.
  destruct response as [tok]. cbn in Hempty.
  destruct Hempty as [->| ->]; cbn; auto 10.
Qed.

Lemma empty_token_response_witness :
  let call := run (worldAt 5000 (Some "")) IamAuthService.getAuthMetadata unissued in
  result call = inl (Error "Received empty token from IAM!") /\ final call = unissued.
Proof.
  cbn zeta.
  pose proof (empty_token_response (worldAt 5000 (Some "")) unissued "signed"
                {| iamToken := Some "" |} eq_refl eq_refl eq_refl (or_intror eq_refl)) as H.
  cbn zeta in H. destruct H as (Hres & Hfinal & _). split; assumption.
Defined.

(** ** The timer wins the race *)

(** C4. A call waits at the race with a timer of 10 seconds. Before the 10
    seconds have passed the timer cannot decide the race. When it fires
    while the call still waits, the object is untouched and the call fails
    with the rejection of the timer as soon as it is resumed; from then on,
    whatever else is scheduled, what the exchange delivers for this call,
    a response or a failure, changes nothing at all: the states are those of
    the schedule without these deliveries. *)
Theorem timeout_discards_late_result
    (self0 : IamAuthService.t) (sched : list (Env * Event))
    (c : nat) (armed : Z) (delay : option Z)
    (k : RaceOutcome -> Prog IamAuthService.t Metadata) (e : Env) :
  let l := exec IamAuthService.getAuthMetadata sched (start self0) in
  calls l !! c = Some (Waiting armed delay k) ->
  let fired := step IamAuthService.getAuthMetadata e (Settle c TimerFirst) l in
  delay = Some (10 * 1000)
  /\ (clock l < armed + 10 * 1000 -> fired = l)
  /\ (armed + 10 * 1000 <= clock l ->
      self fired = self l
      /\ calls fired !! c = Some (Queued (afterRace TimerFirst))
      /\ forall later : list (Env * Event),
           let l2 := exec IamAuthService.getAuthMetadata later fired in
           (calls l2 !! c = Some (Queued (afterRace TimerFirst))
            \/ calls l2 !! c = Some (Returned (inl TimedReject)))
           /\ (forall e',
                 let l3 := step IamAuthService.getAuthMetadata e' (Microtask c) l2 in
                 calls l3 !! c = Some (Returned (inl TimedReject))
                 /\ self l3 = self l2 /\ log l3 = log l2)
           /\ (forall e' late, step IamAuthService.getAuthMetadata e' (Settle c late) l2 = l2)
           /\ l2 = exec IamAuthService.getAuthMetadata
                     (List.filter (notSettling c) later) fired).
Proof.
  cbn zeta. intros Hc.
  pose proof (Forall_lookup_1 _ _ _ _ (reachable_shaped self0 sched) Hc) as [-> ->].
  split; [reflexivity|]. cbn [step]. rewrite Hc.
  unfold due, IamAuthService.tokenRequestTimeout.
  set (l := exec IamAuthService.getAuthMetadata sched (start self0)) in *.
  split.
  - intros Hearly. destruct (Z.leb_spec (armed + 10 * 1000) (clock l)); [lia|reflexivity].
  - intros Hdue. destruct (Z.leb_spec (armed + 10 * 1000) (clock l)); [|lia].
    cbn [self calls].
    assert (Hq : <[c := Queued (afterRace TimerFirst)]> (calls l) !! c
                 = Some (Queued (afterRace TimerFirst)))
      by (apply list_lookup_insert_eq; eapply lookup_lt_Some, Hc).
    split; [reflexivity|]. split; [exact Hq|].
    intros later.
    match goal with |- context [exec _ later ?l1] => set (fired := l1) end.
    assert (Hout : timedOut c fired) by (left; exact Hq).
    destruct (timedOut_exec c later fired Hout) as [Hout2 Hfilter].
    split; [exact Hout2|]. split; [|split].
    + intros e'. cbn [step].
      destruct Hout2 as [H2|H2]; rewrite H2; [|auto].
      rewrite stretch_afterRace. cbn [self calls log after emitted place reached].
      rewrite list_lookup_insert_eq by (eapply lookup_lt_Some, H2).
      rewrite app_nil_r. auto.
    + intros e' late. apply (timedOut_step c e' (Settle c late) _ Hout2).
      cbn. rewrite Nat.eqb_refl. reflexivity.
    + exact Hfilter.
Qed.

Lemma timeout_discards_late_result_witness :
  let l := exec IamAuthService.getAuthMetadata callAndWait (start unissued) in
  let fired := step IamAuthService.getAuthMetadata (envAt 11000) (Settle 0 TimerFirst) l in
  let late := (envAt 16000, Settle 0 (Fulfilled {| iamToken := Some "late" |})) in
  let l2 := exec IamAuthService.getAuthMetadata [(envAt 11000, Microtask 0); late] fired in
  calls l !! 0%nat = Some (Waiting 0 (Some 10000) afterRace)
  /\ calls l2 = [Returned (inl TimedReject)]
  /\ self l2 = unissued
  /\ step IamAuthService.getAuthMetadata (envAt 16000) (snd late) l2 = l2.
Proof.
  cbn zeta. split; [reflexivity|]. split; [reflexivity|]. split; [reflexivity|].
  pose proof (timeout_discards_late_result unissued callAndWait 0 0 (Some 10000) afterRace
                (envAt 11000) eq_refl) as H.
  cbn zeta in H. destruct H as (_ & _ & H).
  destruct H as (_ & _ & H); [vm_compute; discriminate|].
  destruct (H [(envAt 11000, Microtask 0%nat);
               (envAt 16000, Settle 0 (Fulfilled {| iamToken := Some "late" |}))])
    as (_ & _ & Hlate & _).
  apply Hlate.
Defined.

(** ** The token and its timestamp change together *)

(** C5. Whatever calls are in flight and however they are scheduled, one
    event leaves the object as it is or installs the token and the timestamp
    of one response, both in the same uninterrupted stretch (and the call
    that installed them goes on to build its answer); so the pair
    seen in any state is the initial pair or the pair installed by one event.
    An event in which a call fails leaves the object as it was. *)
Theorem cache_updated_together
    (self0 : IamAuthService.t) (sched : list (Env * Event)) (e : Env) (ev : Event) :
  let l := exec IamAuthService.getAuthMetadata sched (start self0) in
  let l' := step IamAuthService.getAuthMetadata e ev l in
  (self l' = self l
   \/ exists c response token,
        ev = Microtask c
        /\ calls l !! c = Some (Queued (afterRace (Fulfilled response)))
        /\ iamToken response = Some token /\ token <> ""
        /\ cache (self l') = (token, Some (utc e InUpdateToken))
        /\ calls l' !! c = Some (Queued respond))
  /\ (cache (self l) = cache self0
      \/ exists before e0 c after token,
           sched = before ++ (e0, Microtask c) :: after
           /\ token <> ""
           /\ cache (self l) = (token, Some (utc e0 InUpdateToken)))
  /\ (forall c err,
        calls l' !! c = Some (Returned (inl err)) ->
        calls l !! c <> Some (Returned (inl err)) ->
        self l' = self l).
Proof.
  cbn zeta. split; [|split].
  - destruct (step_self e ev _ (reachable_shaped self0 sched))
      as [H|(c & response & ch & tok & -> & Hc & Hresp & Hself & Hcalls)]; [left; exact H|].
    right. exists c, response, (String ch tok).
    rewrite Hself, Hcalls. repeat split; try assumption; [discriminate|].
    apply list_lookup_insert_eq. eapply lookup_lt_Some, Hc.
  - clear e ev. induction sched as [|[e ev] sched IH] using rev_ind; [left; reflexivity|].
    rewrite exec_app. cbn [exec].
    destruct (step_self e ev _ (reachable_shaped self0 sched))
      as [H|(c & response & ch & tok & -> & Hc & Hresp & Hself & _)].
    + rewrite H. destruct IH as [IH|(before & e0 & c & rest & token & -> & Hne & Hcache)];
        [left; exact IH|].
      right. exists before, e0, c, (rest ++ [(e, ev)]), token.
      rewrite <- app_assoc. cbn. auto.
    + right. exists sched, e, c, [], (String ch tok). rewrite Hself.
      repeat split. discriminate.
  - intros c err Hafter Hbefore.
    destruct (step_self e ev _ (reachable_shaped self0 sched))
      as [H|(c0 & response & ch & tok & -> & Hc & Hresp & Hself & Hcalls)]; [exact H|].
    exfalso. rewrite Hcalls in Hafter.
    destruct (decide (c0 = c)) as [->|Hne].
    + rewrite list_lookup_insert_eq in Hafter by (eapply lookup_lt_Some, Hc). discriminate.
    + rewrite list_lookup_insert_ne in Hafter by exact Hne. contradiction.
Qed.

(** ** The signed assertion *)

(** C6. A refresh constructs one assertion and signs it. [getJwtRequest]
    calls [jwt.sign] exactly once and returns what it returns (or throws
    what it throws); the payload has the service-account identifier as
    issuer, the fixed audience, the clock in seconds (rounded) as issued-at
    and that plus 3600 as expiry; the key is the private key and the options
    are PS256 with the key identifier. A stale call arms the timer, has that
    assertion signed and, when the signer returned it, sends the very string
    it returned in its one request; a call that is not stale signs nothing.
    So the assertions of two calls made with the same identity at different
    times agree on everything but issued-at and expiry. *)
Theorem signed_assertion (w1 w2 : World) (self1 self2 : IamAuthService.t) :
  IamAuthService.iamCredentials self1 = IamAuthService.iamCredentials self2 ->
  exists (p1 p2 : JwtPayload) (k : Buffer) (o : SignOptions),
    (run w1 IamAuthService.getJwtRequest self1
     = {| result := sign w1 p1 k o; final := self1; effects := [Signing p1 k o] |}
     /\ run w2 IamAuthService.getJwtRequest self2
        = {| result := sign w2 p2 k o; final := self2; effects := [Signing p2 k o] |})
    /\ (forall (w : World) (self : IamAuthService.t) (p : JwtPayload),
          (w, self, p) = (w1, self1, p1) \/ (w, self, p) = (w2, self2, p2) ->
          let call := run w IamAuthService.getAuthMetadata self in
          (result (run w IamAuthService.expired self) = inr true ->
           effects call
           = Timer (10 * 1000) :: Signing p k o
               :: match sign w p k o with
                  | inr jwt => [Request jwt]
                  | inl _ => []
                  end)
          /\ (result (run w IamAuthService.expired self) = inr false -> effects call = [])
          /\ (forall p' k' o',
                In (Signing p' k' o') (effects call) -> p' = p /\ k' = k /\ o' = o))
    /\ (iss p1 = serviceAccountId (IamAuthService.iamCredentials self1)
        /\ aud p1 = "https://iam.api.cloud.yandex.net/iam/v1/tokens"
        /\ iat p1 = Math_round (toSeconds (utc w1 InGetJwtRequest))
        /\ iat p1 = (utc w1 InGetJwtRequest + 500) / 1000
        /\ exp p1 = iat p1 + 3600
        /\ algorithm o = PS256
        /\ keyid o = accessKeyId (IamAuthService.iamCredentials self1)
        /\ k = privateKey (IamAuthService.iamCredentials self1))
    /\ (iss p2 = iss p1 /\ aud p2 = aud p1
        /\ iat p2 = Math_round (toSeconds (utc w2 InGetJwtRequest))
        /\ iat p2 = (utc w2 InGetJwtRequest + 500) / 1000
        /\ exp p2 = iat p2 + 3600).
Proof.
  intros Hid.
  exists (payloadAt (utc w1 InGetJwtRequest) self1), (payloadAt (utc w2 InGetJwtRequest) self2),
         (keyOf self1), (optionsOf self1).
  assert (Hkey : keyOf self2 = keyOf self1) by (unfold keyOf; rewrite Hid; reflexivity).
  assert (Hopt : optionsOf self2 = optionsOf self1) by (unfold optionsOf; rewrite Hid; reflexivity).
  assert (Hcall : forall (w : World) (self : IamAuthService.t),
             let call := run w IamAuthService.getAuthMetadata self in
             let p := payloadAt (utc w InGetJwtRequest) self in
             (result (run w IamAuthService.expired self) = inr true ->
              effects call
              = Timer (10 * 1000) :: Signing p (keyOf self) (optionsOf self)
                  :: match sign w p (keyOf self) (optionsOf self) with
                     | inr jwt => [Request jwt]
                     | inl _ => []
                     end)
             /\ (result (run w IamAuthService.expired self) = inr false -> effects call = [])
             /\ (forall p' k' o',
                   In (Signing p' k' o') (effects call) ->
                   p' = p /\ k' = keyOf self /\ o' = optionsOf self)).
  { intros w self. cbn zeta. split; [|split].
    - rewrite run_expired, run_getAuthMetadata. cbn [result]. intros H. injection H as ->.
      unfold refresh, andThen.
      destruct (sign w _ _ _) as [e|jwt]; [reflexivity|].
      by_outcome (race w); cbn [result effects final answer app]; reflexivity.
    - rewrite run_expired, run_getAuthMetadata. cbn [result]. intros H. injection H as ->.
      reflexivity.
    - intros p' k' o'. apply signing_of_call. }
  split; [|split; [|split]].
  - rewrite !run_getJwtRequest. cbn zeta. rewrite Hkey, Hopt. split; reflexivity.
  - intros w self p [H|H]; injection H as -> -> ->.
    + apply Hcall.
    + rewrite <- Hkey, <- Hopt. apply Hcall.
  - unfold payloadAt, optionsOf, keyOf. cbn [iss aud iat exp algorithm keyid].
    rewrite Math_round_toSeconds. auto 20.
  - unfold payloadAt. cbn [iss aud iat exp]. rewrite Hid, Math_round_toSeconds. auto 20.
Qed.

(** Two refreshes of the same object one second apart. *)
Lemma signed_assertion_witness :
  exists (p1 p2 : JwtPayload),
    effects (run (worldAt 1700000000400 (Some "t1")) IamAuthService.getAuthMetadata unissued)
    = [Timer 10000; Signing p1 (keyOf unissued) (optionsOf unissued); Request "signed"]
    /\ effects (run (worldAt 1700000001400 (Some "t2")) IamAuthService.getAuthMetadata unissued)
       = [Timer 10000; Signing p2 (keyOf unissued) (optionsOf unissued); Request "signed"]
    /\ iat p1 = 1700000000 /\ exp p1 = 1700003600
    /\ iat p2 = 1700000001 /\ exp p2 = 1700003601
    /\ iss p2 = iss p1 /\ aud p2 = aud p1.
Proof.
  destruct (signed_assertion
              (worldAt 1700000000400 (Some "t1")) (worldAt 1700000001400 (Some "t2"))
              unissued unissued eq_refl)
    as (p1 & p2 & k & o & _ & Hcalls & H1 & H2).
  exists p1, p2.
  destruct H1 as (_ & _ & _ & Hiat1 & Hexp1 & Halg & Hkeyid & Hk).
  destruct H2 as (Hiss & Haud & _ & Hiat2 & Hexp2).
  destruct (Hcalls _ _ _ (or_introl eq_refl)) as [Hstale1 _].
  destruct (Hcalls _ _ _ (or_intror eq_refl)) as [Hstale2 _].
  specialize (Hstale1 eq_refl). specialize (Hstale2 eq_refl).
  destruct o as [alg kid]. cbn [algorithm keyid] in Halg, Hkeyid. subst alg kid k.
  split; [exact Hstale1|]. split; [exact Hstale2|].
  assert (E1 : iat p1 = 1700000000) by (rewrite Hiat1; reflexivity).
  assert (E2 : iat p2 = 1700000001) by (rewrite Hiat2; reflexivity).
  rewrite Hexp1, Hexp2, E1, E2. repeat split; assumption.
Defined.

(** ** The call after the threshold *)

(** C7, as stated, fails at the threshold itself: exactly 120 seconds after
    the token was issued the check [>] is still false and the call sends
    nothing. It also fails, well past the threshold, when [jwt.sign] throws:
    the call ends before [this.api.create] is reached. *)
Lemma no_request_at_threshold :
  (IamAuthService.tokenTimestamp issuedAtZero = Some 0
   /\ utc (worldAt 120000 (Some "t2")) InExpired - 0 >= 120 * 1000
   /\ requests (effects (run (worldAt 120000 (Some "t2"))
                           IamAuthService.getAuthMetadata issuedAtZero)) = 0%nat
   /\ run (worldAt 120000 (Some "t2")) IamAuthService.getAuthMetadata issuedAtZero
      = answer issuedAtZero)
  /\ (IamAuthService.tokenTimestamp issuedWithoutKey = Some 0
      /\ utc (keyedWorldAt 500000 (Some "t2")) InExpired - 0 >= 120 * 1000
      /\ requests (effects (run (keyedWorldAt 500000 (Some "t2"))
                              IamAuthService.getAuthMetadata issuedWithoutKey)) = 0%nat
      /\ result (run (keyedWorldAt 500000 (Some "t2"))
                    IamAuthService.getAuthMetadata issuedWithoutKey)
         = inl (SignError "invalid private key")).
Proof. vm_compute. repeat split; discriminate. Qed.

(** C7, amended. Once the clock is more than 120 seconds past the timestamp
    of the token, the next call starts one refresh: it arms the timer once,
    signs one assertion and, when the signer returns it, sends exactly one
    request with it; when the signer throws, the call fails with what was
    thrown and sends nothing. *)
Theorem one_request_when_stale
    (w : World) (self : IamAuthService.t) (issuedAt : DateTime) :
  IamAuthService.tokenTimestamp self = Some issuedAt ->
  utc w InExpired - issuedAt > 120 * 1000 ->
  let call := run w IamAuthService.getAuthMetadata self in
  let signing := Signing (payloadAt (utc w InGetJwtRequest) self) (keyOf self) (optionsOf self) in
  match result (run w IamAuthService.getJwtRequest self) with
  | inr jwt =>
      effects call = [Timer (10 * 1000); signing; Request jwt]
      /\ requests (effects call) = 1%nat
  | inl e =>
      effects call = [Timer (10 * 1000); signing]
      /\ requests (effects call) = 0%nat
      /\ result call = inl e
  end.
Proof.
  intros Hts Hgt. cbn zeta. rewrite run_getJwtRequest, run_getAuthMetadata.
  unfold stale. rewrite Hts.
  destruct (Z.gtb_spec (utc w InExpired - issuedAt) (120 * 1000)); [|lia].
  unfold refresh, andThen. cbn [result].
  destruct (sign w _ _ _) as [e|jwt]; [cbn; auto|].
  by_outcome (race w); cbn; auto.
Qed.

Lemma one_request_when_stale_witness :
  effects (run (worldAt 120001 (Some "t2")) IamAuthService.getAuthMetadata issuedAtZero)
  = [Timer 10000; Signing (payloadAt 120001 issuedAtZero) (keyOf issuedAtZero)
                    (optionsOf issuedAtZero); Request "signed"].
Proof.
  pose proof (one_request_when_stale (worldAt 120001 (Some "t2")) issuedAtZero 0 eq_refl) as H.
  cbn zeta in H. rewrite run_getJwtRequest in H. cbn [result sign worldAt env envAt signAll] in H.
  destruct H as [H _]; [reflexivity|exact H].
Defined.

(** ** The static token *)

(** C8, as stated, fails for a token gRPC refuses as a metadata value: on
    the object constructed with ["abc123"] followed by a line feed the call
    returns no metadata, [Metadata.add] throws. *)
Lemma static_call_with_refused_token :
  let token := ("abc123" ++ lineFeed)%string in
  let self := TokenAuthService.constructor token in
  let r := run (worldAt 0 None) TokenAuthService.getAuthMetadata self in
  result r = inl (illegalValue token)
  /\ result r <> inr [("x-ydb-auth-ticket", token)]
  /\ effects r = [] /\ final r = self.
Proof. vm_compute. repeat split; discriminate. Qed.

(** C8, amended. Whatever the token given to the constructor and however
    many calls are made, each call ends at once (it is never suspended),
    without any effect outside, and leaves the object as it was. When the
    token is made of printable ASCII characters each call returns the
    metadata with exactly that token under [x-ydb-auth-ticket]; otherwise
    each call fails with the error of [Metadata.add]. *)
Theorem static_token (token : string) (ws : list World) :
  let self := TokenAuthService.constructor token in
  let outcome : JsError + Metadata :=
    if metadataNonbinValueIsLegal token
    then inr [("x-ydb-auth-ticket", token)]
    else inl (illegalValue token) in
  length (TokenAuthService.calls ws self) = length ws
  /\ Forall (fun r : Run TokenAuthService.t Metadata =>
               result r = outcome /\ effects r = [] /\ final r = self)
            (TokenAuthService.calls ws self)
  /\ forall e : Env,
       stretch e TokenAuthService.getAuthMetadata self
       = {| reached := Ended outcome; after := self; emitted := [] |}.
Proof.
  cbn zeta. fold (ticket token). split; [|split].
  - induction ws as [|w ws IH]; cbn [TokenAuthService.calls length]; [reflexivity|].
    rewrite run_static. cbn [final]. f_equal. exact IH.
  - induction ws as [|w ws IH]; cbn [TokenAuthService.calls]; constructor.
    + rewrite run_static. cbn. auto.
    + rewrite run_static. cbn [final]. exact IH.
  - intros e. rewrite <- makeCredentialsMetadata_ticket.
    apply (stretch_evaluate (O := TokenAuthService.t)).
Qed.

(** ** Construction *)

(** C9, as stated, fails: built from an identity whose account identifier,
    key identifier and private key are all empty, the object is made all the
    same, with the empty fields stored in it. *)
Lemma construction_accepts_empty_identity :
  hasEmptyInput emptyIdentity
  /\ IamAuthService.constructor GrpcService_lazy emptyIdentity
     = inr {| IamAuthService.base :=
                {| host := "iam.api.cloud.yandex.net:443";
                   name := "yandex.cloud.iam.v1.IamTokenService";
                   transportSecurity := sampleSsl |};
              IamAuthService.token := "";
              IamAuthService.tokenTimestamp := None;
              IamAuthService.iamCredentials :=
                {| serviceAccountId := ""; accessKeyId := ""; privateKey := [];
                   iamEndpoint := "iam.api.cloud.yandex.net:443" |};
              IamAuthService.sslCredentials := sampleSsl |}.
Proof. split; [left; reflexivity|reflexivity]. Qed.

(** C9, amended. The constructor checks none of its inputs itself. It hands
    the endpoint and the transport-security material to the constructor of
    the base class and fails exactly when that one does, with its error;
    otherwise it succeeds whatever the identity is, and the object holds the
    identity and the security material as given, the empty token and no
    timestamp. With a base class that validates lazily it always succeeds. *)
Theorem construction_validates_nothing
    (super : string -> string -> ISslCredentials -> JsError + GrpcService)
    (authCredentials : IAuthCredentials.t) :
  let identity := IAuthCredentials.iamCredentials authCredentials in
  let ssl := IAuthCredentials.sslCredentials authCredentials in
  (forall e,
      IamAuthService.constructor super authCredentials = inl e <->
      super (iamEndpoint identity) "yandex.cloud.iam.v1.IamTokenService" ssl = inl e)
  /\ (forall self,
        IamAuthService.constructor super authCredentials = inr self <->
        super (iamEndpoint identity) "yandex.cloud.iam.v1.IamTokenService" ssl
        = inr (IamAuthService.base self)
        /\ IamAuthService.token self = ""
        /\ IamAuthService.tokenTimestamp self = None
        /\ IamAuthService.iamCredentials self = identity
        /\ IamAuthService.sslCredentials self = ssl)
  /\ (forall serviceAccountId' accessKeyId' privateKey',
        let identity' :=
          {| serviceAccountId := serviceAccountId'; accessKeyId := accessKeyId';
             privateKey := privateKey'; iamEndpoint := iamEndpoint identity |} in
        let authCredentials' :=
          {| IAuthCredentials.sslCredentials := ssl;
             IAuthCredentials.iamCredentials := identity' |} in
        forall self,
          IamAuthService.constructor super authCredentials = inr self ->
          IamAuthService.constructor super authCredentials'
          = inr {| IamAuthService.base := IamAuthService.base self;
                   IamAuthService.token := "";
                   IamAuthService.tokenTimestamp := None;
                   IamAuthService.iamCredentials := identity';
                   IamAuthService.sslCredentials := ssl |})
  /\ exists self, IamAuthService.constructor GrpcService_lazy authCredentials = inr self.
Proof.
  cbn zeta. unfold IamAuthService.constructor. cbn [IAuthCredentials.iamCredentials
    IAuthCredentials.sslCredentials iamEndpoint].
  split; [|split; [|split]].
  - intros e. destruct (super _ _ _); split; congruence.
  - intros self. destruct (super _ _ _) as [e|b].
    + split; [discriminate|]. intros [H _]. discriminate.
    + split.
      * intros H. injection H as <-. cbn. auto.
      * intros (Hb & Ht & Hts & Hi & Hs). destruct self; cbn in *. congruence.
  - intros sa ak pk self. destruct (super _ _ _) as [e|b]; [discriminate|].
    intros H. injection H as <-. reflexivity.
  - eexists. reflexivity.
Qed.

(** ** The token returned is never empty *)

(** C10. On an object made by the constructor, whatever calls are made and
    however they are scheduled: in every state, if there is a timestamp the
    token is not empty, and every call that has returned metadata has
    returned a token that is not empty. The first call cannot answer from
    the cache: the check is true on the new object, whatever the clock. *)
Theorem token_never_empty
    (super : string -> string -> ISslCredentials -> JsError + GrpcService)
    (authCredentials : IAuthCredentials.t) (self0 : IamAuthService.t)
    (sched : list (Env * Event)) :
  IamAuthService.constructor super authCredentials = inr self0 ->
  let l := exec IamAuthService.getAuthMetadata sched (start self0) in
  (IamAuthService.tokenTimestamp (self l) <> None -> IamAuthService.token (self l) <> "")
  /\ (forall c metadata,
        calls l !! c = Some (Returned (inr metadata)) ->
        exists token, token <> "" /\ metadata = [("x-ydb-auth-ticket", token)])
  /\ (forall w : World, result (run w IamAuthService.expired self0) = inr true)
  /\ (forall (w : World) metadata,
        result (run w IamAuthService.getAuthMetadata self0) = inr metadata ->
        exists token, token <> "" /\ metadata = [("x-ydb-auth-ticket", token)]
                      /\ race w = Fulfilled {| iamToken := Some token |}).
Proof.
  intros Hnew. apply constructor_tokenWithTimestamp in Hnew as [Htoken Hts]. cbn zeta.
  assert (Hsound : sound (exec IamAuthService.getAuthMetadata sched (start self0))).
  { apply exec_sound, start_sound. intros H. contradiction. }
  destruct Hsound as [Hinv Hcalls]. split; [exact Hinv|]. split; [|split].
  - intros c metadata Hc. exact (Forall_lookup_1 _ _ _ _ Hcalls Hc).
  - intros w. rewrite run_expired. unfold stale. rewrite Hts. reflexivity.
  - intros w metadata. rewrite run_getAuthMetadata. unfold stale. rewrite Hts.
    unfold refresh, andThen. destruct (sign w _ _ _) as [err|jwt]; [discriminate|].
    destruct (race w) as [|[[[|ch tok]|]]|reason]; cbn -[makeCredentialsMetadata];
      try discriminate.
    intros H. apply makeCredentialsMetadata_inr in H as [_ ->].
    exists (String ch tok). repeat split. discriminate.
Qed.

Lemma token_never_empty_witness :
  let l := exec IamAuthService.getAuthMetadata twoCalls (start unissued) in
  IamAuthService.token (self l) = "t1"
  /\ calls l = [Returned (inr [("x-ydb-auth-ticket", "t1")]);
                Returned (inl (Error "Received empty token from IAM!"));
                Returned (inr [("x-ydb-auth-ticket", "t1")])]
  /\ IamAuthService.token (self l) <> "".
Proof.
  cbn zeta. split; [reflexivity|]. split; [reflexivity|].
  pose proof (token_never_empty GrpcService_lazy
                {| IAuthCredentials.sslCredentials := sampleSsl;
                   IAuthCredentials.iamCredentials := sampleCredentials |}
                unissued twoCalls eq_refl) as H.
  cbn zeta in H. destruct H as [H _]. apply H. vm_compute. discriminate.
Defined.

(** * Further properties of [IamAuthService] *)

(** ** What a refresh gives *)

(** X1. When the request of a stale object is rejected before the timer
    fires, the call fails with that very rejection, after one request, and
    the object is as it was. *)
Theorem transport_error_passes_through
    (w : World) (self : IamAuthService.t) (jwt reason : string) :
  result (run w IamAuthService.expired self) = inr true ->
  result (run w IamAuthService.getJwtRequest self) = inr jwt ->
  race w = Rejected reason ->
  let call := run w IamAuthService.getAuthMetadata self in
  result call = inl (ApiError reason)
  /\ final call = self
  /\ effects call
     = [Timer (10 * 1000);
        Signing (payloadAt (utc w InGetJwtRequest) self) (keyOf self) (optionsOf self);
        Request jwt].
Proof.
  rewrite run_expired, run_getJwtRequest. cbn [result]. intros Hstale Hsign Hrace.
  cbn zeta. rewrite run_getAuthMetadata. injection Hstale as ->.
  unfold refresh, andThen. rewrite Hsign, Hrace. cbn. auto.
Qed.

Lemma transport_error_passes_through_witness :
  let w := {| env := envAt 5000; race := Rejected "UNAVAILABLE" |} in
  result (run w IamAuthService.getAuthMetadata unissued) = inl (ApiError "UNAVAILABLE")
  /\ final (run w IamAuthService.getAuthMetadata unissued) = unissued.
Proof.
  cbn zeta.
  pose proof (transport_error_passes_through
                {| env := envAt 5000; race := Rejected "UNAVAILABLE" |}
                unissued "signed" "UNAVAILABLE" eq_refl eq_refl eq_refl) as H.
  cbn zeta in H. destruct H as (Hres & Hfinal & _). split; assumption.
Defined.

(** X2. When the request of a stale object is answered with a token that is
    not empty, the object then holds it with, as its timestamp, the clock
    read when the response is handled (not when the request was sent), and
    nothing else of the object has changed. The call returns that token when
    it is made of printable ASCII characters; otherwise the call fails with
    the error of [Metadata.add], the token and the timestamp being installed
    all the same. Every later call within 120 seconds of that reading ends
    in the same way, from the cache, without any effect. *)
Theorem refresh_installs_response_token
    (w : World) (self : IamAuthService.t) (jwt token : string)
    (response : ICreateIamTokenResponse) (ws : list World) :
  result (run w IamAuthService.expired self) = inr true ->
  result (run w IamAuthService.getJwtRequest self) = inr jwt ->
  race w = Fulfilled response ->
  iamToken response = Some token ->
  token <> "" ->
  Forall (fun w' : World => utc w' InExpired - utc w InUpdateToken <= 120 * 1000) ws ->
  let call := run w IamAuthService.getAuthMetadata self in
  let outcome : JsError + Metadata :=
    if metadataNonbinValueIsLegal token
    then inr [("x-ydb-auth-ticket", token)]
    else inl (illegalValue token) in
  result call = outcome
  /\ final call
     = IamAuthService.set_tokenTimestamp (Some (utc w InUpdateToken))
         (IamAuthService.set_token token self)
  /\ requests (effects call) = 1%nat
  /\ Forall (fun r : Run IamAuthService.t Metadata =>
               result r = outcome /\ effects r = [] /\ final r = final call)
            (IamAuthService.calls ws (final call)).
Proof.
  rewrite run_expired, run_getJwtRequest. cbn [result].
  intros Hstale Hsign Hrace Htok Hne Hws. cbn zeta.
  rewrite run_getAuthMetadata. injection Hstale as ->.
  unfold refresh, andThen. rewrite Hsign, Hrace, Htok.
  fold (ticket token).
  destruct token as [|ch rest]; [contradiction|]. cbn [result final effects answer app].
  split; [apply makeCredentialsMetadata_ticket|]. split; [reflexivity|]. split; [reflexivity|].
  set (self' := IamAuthService.set_tokenTimestamp _ _).
  assert (Hts : IamAuthService.tokenTimestamp self' = Some (utc w InUpdateToken))
    by reflexivity.
  assert (Htoken : IamAuthService.token self' = String ch rest) by reflexivity.
  clearbody self'. revert Hws. induction 1 as [|w' ws' Hw' Hws' IH];
    cbn [IamAuthService.calls]; [constructor|].
  rewrite (run_cached w' self' _ Hts Hw'). cbn [final answer].
  constructor; [|exact IH]. cbn [result effects final answer].
  rewrite Htoken, makeCredentialsMetadata_ticket. auto.
Qed.

Lemma refresh_installs_response_token_witness :
  let call := run (worldAt 1000 (Some "t1")) IamAuthService.getAuthMetadata unissued in
  result call = inr [("x-ydb-auth-ticket", "t1")]
  /\ IamAuthService.tokenTimestamp (final call) = Some 1000
  /\ map result (IamAuthService.calls [worldAt 121000 None] (final call))
     = [inr [("x-ydb-auth-ticket", "t1")]].
Proof.
  cbn zeta.
  pose proof (refresh_installs_response_token (worldAt 1000 (Some "t1")) unissued
                "signed" "t1" {| iamToken := Some "t1" |} [worldAt 121000 None]
                eq_refl eq_refl eq_refl eq_refl) as H.
  cbn zeta in H. destruct H as (Hres & Hfinal & _ & _).
  - discriminate.
  - repeat constructor. vm_compute. discriminate.
  - split; [exact Hres|]. rewrite Hfinal. split; reflexivity.
Defined.

(** ** Requests *)

Lemma requests_app (a b : list Effect) :
  requests (a ++ b) = (requests a + requests b)%nat.
Proof. unfold requests. rewrite List.filter_app, length_app. reflexivity. Qed.

(** What an invocation does on a stale object whose assertion gets signed. *)
Lemma invoke_stale (e : Env) (l : Loop IamAuthService.t Metadata) (jwt : string) :
  stale (utc e InExpired) (self l) = true ->
  sign e (payloadAt (utc e InGetJwtRequest) (self l)) (keyOf (self l)) (optionsOf (self l))
  = inr jwt ->
  step IamAuthService.getAuthMetadata e Invoke l
  = {| self := self l; clock := clock l;
       calls := calls l ++ [Waiting (clock l) (Some (10 * 1000)) afterRace];
       log := log l
              ++ [Timer (10 * 1000);
                  Signing (payloadAt (utc e InGetJwtRequest) (self l)) (keyOf (self l))
                    (optionsOf (self l));
                  Request jwt] |}.
Proof.
  intros Hstale Hsign. cbn [step]. rewrite stretch_getAuthMetadata. cbn zeta.
  rewrite Hstale, Hsign. reflexivity.
Qed.

Lemma burst_from (es : list Env) (l : Loop IamAuthService.t Metadata) :
  Forall (fun e : Env => stale (utc e InExpired) (self l) = true /\ signs e (self l)) es ->
  let l' := exec IamAuthService.getAuthMetadata (map (fun e => (e, Invoke)) es) l in
  self l' = self l
  /\ clock l' = clock l
  /\ calls l' = calls l ++ replicate (length es) (Waiting (clock l) (Some (10 * 1000)) afterRace)
  /\ requests (log l') = (requests (log l) + length es)%nat.
Proof.
  cbn zeta. revert l. induction es as [|e es IH]; intros l Hes; cbn [map exec].
  - cbn. rewrite app_nil_r, Nat.add_0_r. auto.
  - apply Forall_cons in Hes as [[Hstale [jwt Hsign]] Hes].
    rewrite (invoke_stale e l jwt Hstale Hsign).
    match goal with |- context [exec _ _ ?l1] => set (l1' := l1) end.
    destruct (IH l1' Hes) as (Hself & Hclock & Hcalls & Hreq).
    rewrite Hself, Hclock, Hcalls, Hreq. subst l1'. cbn [self clock calls log].
    rewrite requests_app, <- app_assoc. cbn. repeat split; lia.
Qed.

(** X3. Calls are not merged. When [n] calls are invoked on a stale object
    before any response is handled, each of them arms its own timer, signs
    its own assertion and sends its own request: [n] requests are sent, and
    all [n] calls wait, each at its own race. *)
Theorem concurrent_calls_each_refresh (self0 : IamAuthService.t) (es : list Env) :
  Forall (fun e : Env => stale (utc e InExpired) self0 = true /\ signs e self0) es ->
  let l := exec IamAuthService.getAuthMetadata (map (fun e => (e, Invoke)) es) (start self0) in
  requests (log l) = length es
  /\ calls l = replicate (length es) (Waiting 0 (Some (10 * 1000)) afterRace)
  /\ self l = self0.
Proof.
  intros Hes. destruct (burst_from es (start self0) Hes) as (Hself & _ & Hcalls & Hreq).
  cbn zeta. rewrite Hself, Hcalls, Hreq. cbn. auto.
Qed.

Lemma concurrent_calls_each_refresh_witness :
  requests (log (exec IamAuthService.getAuthMetadata
                   [(envAt 1000, Invoke); (envAt 1000, Invoke); (envAt 1001, Invoke)]
                   (start unissued))) = 3%nat.
Proof.
  pose proof (concurrent_calls_each_refresh unissued [envAt 1000; envAt 1000; envAt 1001]) as H.
  cbn zeta in H. destruct H as (H & _).
  - repeat constructor; eexists; reflexivity.
  - exact H.
Defined.

(** The log grows only when a call is invoked. *)
Lemma step_log (e : Env) (ev : Event) (l : Loop IamAuthService.t Metadata) :
  Forall shaped (calls l) ->
  let l' := step IamAuthService.getAuthMetadata e ev l in
  match ev with
  | Invoke =>
      log l' = log l ++ emitted (stretch e IamAuthService.getAuthMetadata (self l))
      /\ length (calls l') = S (length (calls l))
  | _ => log l' = log l /\ length (calls l') = length (calls l)
  end.
Proof.
  intros Hcalls. cbn zeta. destruct ev as [|ms|c outcome|c]; cbn [step].
  - cbn [log calls]. rewrite length_app. cbn. split; [reflexivity|lia].
  - destruct (0 <=? ms); split; reflexivity.
  - destruct (calls l !! c) as [[armed delay k|k|r]|]; try (split; reflexivity).
    destruct outcome; [destruct (due _ _ _)| |]; cbn [log calls];
      rewrite ?length_insert; split; reflexivity.
  - destruct (calls l !! c) as [[armed delay k|k|r]|] eqn:Hc; try (split; reflexivity).
    cbn [log calls]. rewrite length_insert.
    pose proof (Forall_lookup_1 _ _ _ _ Hcalls Hc) as [->|[outcome ->]].
    + rewrite stretch_respond. cbn. rewrite app_nil_r. split; reflexivity.
    + rewrite stretch_afterRace.
      destruct outcome as [|[[[|ch tok]|]]|reason]; cbn; rewrite app_nil_r;
        split; reflexivity.
Qed.

Lemma invoke_sends_at_most_one (e : Env) (self : IamAuthService.t) :
  (requests (emitted (stretch e IamAuthService.getAuthMetadata self)) <= 1)%nat.
Proof.
  rewrite stretch_getAuthMetadata. cbn zeta.
  destruct (stale _ _); [destruct (sign e _ _ _)|]; cbn; lia.
Qed.

(** X4. Whatever is scheduled, requests are sent only when a call is
    invoked, at most one for each invocation: handling a response, a
    rejection or a timer, and resuming a call, send nothing. So a refresh
    that failed is never tried again by the call itself. *)
Theorem only_invocations_send
    (self0 : IamAuthService.t) (sched : list (Env * Event)) (e : Env) (ev : Event) :
  let l := exec IamAuthService.getAuthMetadata sched (start self0) in
  let l' := step IamAuthService.getAuthMetadata e ev l in
  (requests (log l) <= invocations sched)%nat
  /\ length (calls l) = invocations sched
  /\ (ev <> Invoke -> log l' = log l)
  /\ (requests (log l') <= requests (log l) + 1)%nat.
Proof.
  cbn zeta. split; [|split; [|split]].
  - clear e ev. induction sched as [|[e ev] sched IH] using rev_ind; [cbn; lia|].
    rewrite exec_app. cbn [exec]. unfold invocations in *.
    rewrite List.filter_app, length_app. cbn [List.filter is_invoke snd].
    pose proof (step_log e ev _ (reachable_shaped self0 sched)) as H. cbn zeta in H.
    destruct ev; destruct H as [H _]; rewrite H; cbn [is_invoke snd length]; try lia.
    rewrite requests_app.
    pose proof (invoke_sends_at_most_one e
                  (self (exec IamAuthService.getAuthMetadata sched (start self0)))).
    lia.
  - clear e ev. induction sched as [|[e ev] sched IH] using rev_ind; [reflexivity|].
    rewrite exec_app. cbn [exec]. unfold invocations in *.
    rewrite List.filter_app, length_app. cbn [List.filter is_invoke snd].
    pose proof (step_log e ev _ (reachable_shaped self0 sched)) as H. cbn zeta in H.
    destruct ev; destruct H as [_ H]; rewrite H; cbn [is_invoke snd length]; lia.
  - intros Hev.
    pose proof (step_log e ev _ (reachable_shaped self0 sched)) as H. cbn zeta in H.
    destruct ev; try contradiction; apply H.
  - pose proof (step_log e ev _ (reachable_shaped self0 sched)) as H. cbn zeta in H.
    destruct ev; destruct H as [H _]; rewrite H; try lia.
    rewrite requests_app.
    pose proof (invoke_sends_at_most_one e
                  (self (exec IamAuthService.getAuthMetadata sched (start self0)))).
    lia.
Qed.
(** ** The order of responses *)

(** X5. Responses are applied in the order in which they are handled, not
    in the order of their requests. When the response of a waiting call
    carries a token that is not empty, handling it installs that token with
    the clock of that moment, whatever the object held: also a token fetched
    by a request that was sent later. *)
Theorem late_response_overwrites
    (self0 : IamAuthService.t) (sched : list (Env * Event))
    (c : nat) (armed : Z) (delay : option Z)
    (k : RaceOutcome -> Prog IamAuthService.t Metadata)
    (response : ICreateIamTokenResponse) (token : string) (e1 e2 : Env) :
  let l := exec IamAuthService.getAuthMetadata sched (start self0) in
  calls l !! c = Some (Waiting armed delay k) ->
  iamToken response = Some token ->
  token <> "" ->
  let l' := exec IamAuthService.getAuthMetadata
              [(e1, Settle c (Fulfilled response)); (e2, Microtask c)] l in
  cache (self l') = (token, Some (utc e2 InUpdateToken))
  /\ calls l' !! c = Some (Queued respond)
  /\ log l' = log l.
Proof.
  cbn zeta. intros Hc Htok Hne.
  pose proof (Forall_lookup_1 _ _ _ _ (reachable_shaped self0 sched) Hc) as [_ ->].
  set (l := exec IamAuthService.getAuthMetadata sched (start self0)) in *.
  assert (Hlt : (c < length (calls l))%nat) by (eapply lookup_lt_Some, Hc).
  cbn [exec step]. rewrite Hc. cbn [calls self clock log].
  rewrite list_lookup_insert_eq by exact Hlt.
  rewrite stretch_afterRace. destruct response as [tok]. cbn in Htok. subst tok.
  destruct token as [|ch rest]; [contradiction|].
  cbn [iamToken self calls log after emitted place reached].
  rewrite list_lookup_insert_eq by (rewrite length_insert; exact Hlt).
  rewrite app_nil_r. auto.
Qed.

Lemma late_response_overwrites_witness :
  let l := exec IamAuthService.getAuthMetadata outOfOrder (start unissued) in
  calls l = [Queued respond; Returned (inr [("x-ydb-auth-ticket", "second")])]
  /\ cache (self l) = ("first", Some 3000).
Proof.
  cbn zeta. split; [reflexivity|].
  pose proof (late_response_overwrites unissued (take 5 outOfOrder) 0 0 (Some 10000) afterRace
                {| iamToken := Some "first" |} "first" (envAt 3000) (envAt 3000)
                eq_refl eq_refl) as H.
  cbn zeta in H. destruct H as (H & _); [discriminate|]. exact H.
Defined.

(** X6. A call answers with the token the object holds at the moment the
    call returns, which need not be the token of its own response: whenever
    an event makes a call return metadata, the metadata carry the token
    cached in the state the event leaves, and the event has not changed the
    object. *)
Theorem returned_token_is_cache_at_return
    (self0 : IamAuthService.t) (sched : list (Env * Event)) (e : Env) (ev : Event)
    (c : nat) (metadata : Metadata) :
  let l := exec IamAuthService.getAuthMetadata sched (start self0) in
  let l' := step IamAuthService.getAuthMetadata e ev l in
  calls l' !! c = Some (Returned (inr metadata)) ->
  calls l !! c <> Some (Returned (inr metadata)) ->
  metadata = [("x-ydb-auth-ticket", IamAuthService.token (self l'))]
  /\ self l' = self l.
Proof.
  cbn zeta. pose proof (reachable_shaped self0 sched) as Hshaped.
  set (l := exec IamAuthService.getAuthMetadata sched (start self0)) in *.
  destruct ev as [|ms|c' outcome|c']; cbn [step].
  - rewrite stretch_getAuthMetadata. cbn zeta. intros Hafter Hbefore.
    assert (Hnew : forall call : Call IamAuthService.t Metadata,
               (calls l ++ [call]) !! c = Some (Returned (inr metadata)) ->
               call = Returned (inr metadata)).
    { intros call H. apply lookup_app_Some in H as [H|[_ H]]; [contradiction|].
      apply list_lookup_singleton_Some in H as [_ H]. exact H. }
    destruct (stale _ _); [destruct (sign e _ _ _)|]; cbn [calls self after] in *;
      apply Hnew in Hafter; unfold place in Hafter;
      cbn -[makeCredentialsMetadata] in Hafter; try discriminate.
    injection Hafter as Hafter. apply makeCredentialsMetadata_inr in Hafter as [_ ->]. auto.
  - destruct (0 <=? ms); intros Hafter Hbefore; contradiction.
  - intros Hafter Hbefore. exfalso.
    destruct (calls l !! c') as [[armed delay k|k|r]|] eqn:Hc'; try contradiction.
    assert (Hins : forall k' : Prog IamAuthService.t Metadata,
               <[c' := Queued k']> (calls l) !! c = Some (Returned (inr metadata)) ->
               False).
    { intros k' H. destruct (decide (c' = c)) as [->|Hne].
      - rewrite list_lookup_insert_eq in H by (eapply lookup_lt_Some, Hc'). discriminate.
      - rewrite list_lookup_insert_ne in H by exact Hne. contradiction. }
    destruct outcome; [destruct (due _ _ _); [|contradiction]| |];
      cbn [calls] in Hafter; eapply Hins, Hafter.
  - destruct (calls l !! c') as [[armed delay k|k|r]|] eqn:Hc';
      try (intros Hafter Hbefore; contradiction).
    cbn [calls self]. intros Hafter Hbefore.
    destruct (decide (c' = c)) as [->|Hne];
      [|rewrite list_lookup_insert_ne in Hafter by exact Hne; contradiction].
    rewrite list_lookup_insert_eq in Hafter by (eapply lookup_lt_Some, Hc').
    pose proof (Forall_lookup_1 _ _ _ _ Hshaped Hc') as [->|[outcome ->]].
    + rewrite stretch_respond in *. unfold place in Hafter.
      cbn -[makeCredentialsMetadata] in *.
      injection Hafter as Hafter. apply makeCredentialsMetadata_inr in Hafter as [_ ->]. auto.
    + rewrite stretch_afterRace in Hafter.
      destruct outcome as [|[[[|ch tok]|]]|reason]; discriminate.
Qed.

Lemma returned_token_is_cache_at_return_witness :
  let l := exec IamAuthService.getAuthMetadata overtaken (start unissued) in
  let l' := step IamAuthService.getAuthMetadata (envAt 1500) (Microtask 0) l in
  calls l !! 0%nat = Some (Queued respond)
  /\ calls l' !! 0%nat = Some (Returned (inr [("x-ydb-auth-ticket", "b")])).
Proof.
  cbn zeta. split; [reflexivity|].
  pose proof (returned_token_is_cache_at_return unissued overtaken (envAt 1500) (Microtask 0)
                0 [("x-ydb-auth-ticket", "b")] eq_refl) as H.
  cbn zeta in H. destruct H as [H _]; [vm_compute; discriminate|].
  rewrite H. reflexivity.
Defined.

(** ** A race is decided once *)

Lemma decided_step (c : nat) (e : Env) (ev : Event) (l : Loop IamAuthService.t Metadata) :
  decided c l ->
  decided c (step IamAuthService.getAuthMetadata e ev l)
  /\ (notSettling c (e, ev) = false -> step IamAuthService.getAuthMetadata e ev l = l)
  /\ (forall r, calls l !! c = Some (Returned r) ->
                calls (step IamAuthService.getAuthMetadata e ev l) !! c = Some (Returned r)).
Proof.
  unfold decided. intros Hc.
  destruct (calls l !! c) as [call|] eqn:Hcall; [|contradiction].
  assert (Hlt : (c < length (calls l))%nat) by (eapply lookup_lt_Some, Hcall).
  destruct ev as [|ms|c' outcome|c']; cbn [step notSettling snd].
  - cbn [calls]. rewrite lookup_app_l by exact Hlt. rewrite Hcall.
    split; [exact Hc|]. split; [discriminate|auto].
  - destruct (0 <=? ms); cbn [calls]; rewrite Hcall; split; auto; split; [discriminate|auto].
  - destruct (Nat.eqb_spec c' c) as [->|Hne]; cbn [negb].
    + rewrite Hcall. destruct call as [armed delay k|k|r]; [contradiction| |];
        rewrite Hcall; auto.
    + assert (Hkeep : forall k' : Prog IamAuthService.t Metadata,
                 <[c' := Queued k']> (calls l) !! c = Some call)
        by (intros k'; rewrite list_lookup_insert_ne by exact Hne; exact Hcall).
      destruct (calls l !! c') as [[armed delay k|k|r]|];
        [destruct outcome; [destruct (due _ _ _)| |]| | |]; cbn [calls];
        rewrite ?Hkeep, ?Hcall; (split; [exact Hc|]); (split; [discriminate|auto]).
  - destruct (decide (c' = c)) as [->|Hne].
    + rewrite Hcall. destruct call as [armed delay k|k|r]; [contradiction| |].
      * cbn [calls]. rewrite list_lookup_insert_eq by exact Hlt.
        split; [|split; [discriminate|discriminate]].
        destruct Hc as [->|[outcome ->]].
        -- rewrite stretch_respond. exact I.
        -- rewrite stretch_afterRace.
           destruct outcome as [|[[[|ch tok]|]]|reason]; unfold place; cbn; auto.
      * rewrite Hcall. auto.
    + assert (Hkeep : forall call' : Call IamAuthService.t Metadata,
                 <[c' := call']> (calls l) !! c = Some call)
        by (intros call'; rewrite list_lookup_insert_ne by exact Hne; exact Hcall).
      destruct (calls l !! c') as [[armed delay k|k|r]|]; cbn [calls];
        rewrite ?Hkeep, ?Hcall; (split; [exact Hc|]); (split; [discriminate|auto]).
Qed.

Lemma decided_exec (c : nat) (sched : list (Env * Event))
    (l : Loop IamAuthService.t Metadata) :
  decided c l ->
  exec IamAuthService.getAuthMetadata sched l
  = exec IamAuthService.getAuthMetadata (List.filter (notSettling c) sched) l
  /\ (forall r, calls l !! c = Some (Returned r) ->
                calls (exec IamAuthService.getAuthMetadata sched l) !! c = Some (Returned r)).
Proof.
  revert l. induction sched as [|[e ev] sched IH]; intros l Hc; cbn [exec List.filter].
  - split; [reflexivity|auto].
  - destruct (decided_step c e ev l Hc) as (Hc' & Hdrop & Hret).
    destruct (IH _ Hc') as [IHeq IHret].
    destruct (notSettling c (e, ev)).
    + cbn [exec]. split; [exact IHeq|]. intros r Hr. apply IHret, Hret, Hr.
    + rewrite Hdrop in * by reflexivity. split; [exact IHeq|exact IHret].
Qed.

(** X7. The race of a call is decided once. As soon as a call no longer
    waits, whatever is delivered for it afterwards, the timer that fires
    after the response as much as a response after the timer, changes
    nothing: the states are those of the schedule without these deliveries.
    A call that has returned keeps its result. *)
Theorem race_decided_once
    (self0 : IamAuthService.t) (sched later : list (Env * Event))
    (c : nat) (call : Call IamAuthService.t Metadata) :
  let l := exec IamAuthService.getAuthMetadata sched (start self0) in
  calls l !! c = Some call ->
  (forall armed delay k, call <> Waiting armed delay k) ->
  exec IamAuthService.getAuthMetadata later l
  = exec IamAuthService.getAuthMetadata (List.filter (notSettling c) later) l
  /\ (forall r, call = Returned r ->
                calls (exec IamAuthService.getAuthMetadata later l) !! c = Some (Returned r)).
Proof.
  cbn zeta. intros Hc Hnot.
  assert (Hd : decided c (exec IamAuthService.getAuthMetadata sched (start self0))).
  { unfold decided. rewrite Hc.
    pose proof (Forall_lookup_1 _ _ _ _ (reachable_shaped self0 sched) Hc) as Hs.
    destruct call as [armed delay k|k|r]; [|exact Hs|exact I].
    exfalso. eapply Hnot. reflexivity. }
  destruct (decided_exec c later _ Hd) as [Heq Hret].
  split; [exact Heq|]. intros r ->. apply Hret, Hc.
Qed.

Lemma race_decided_once_witness :
  let l := exec IamAuthService.getAuthMetadata
             [(envAt 1000, Invoke);
              (envAt 1500, Settle 0 (Fulfilled {| iamToken := Some "t1" |}))]
             (start unissued) in
  let later := [(envAt 11000, Elapse 10000); (envAt 11000, Settle 0 TimerFirst);
                (envAt 11000, Microtask 0); (envAt 11000, Microtask 0)] in
  calls (exec IamAuthService.getAuthMetadata later l)
  = [Returned (inr [("x-ydb-auth-ticket", "t1")])]
  /\ exec IamAuthService.getAuthMetadata later l
     = exec IamAuthService.getAuthMetadata
         [(envAt 11000, Elapse 10000); (envAt 11000, Microtask 0);
          (envAt 11000, Microtask 0)] l.
Proof.
  cbn zeta. split; [reflexivity|].
  pose proof (race_decided_once unissued
                [(envAt 1000, Invoke);
                 (envAt 1500, Settle 0 (Fulfilled {| iamToken := Some "t1" |}))]
                [(envAt 11000, Elapse 10000); (envAt 11000, Settle 0 TimerFirst);
                 (envAt 11000, Microtask 0%nat); (envAt 11000, Microtask 0%nat)]
                0 (Queued (afterRace (Fulfilled {| iamToken := Some "t1" |})))
                eq_refl) as H.
  cbn zeta in H. destruct H as [H _]; [discriminate|]. exact H.
Defined.

(** ** What never changes *)

Lemma step_identity (e : Env) (ev : Event) (l : Loop IamAuthService.t Metadata) :
  Forall shaped (calls l) ->
  let o := self l in
  let o' := self (step IamAuthService.getAuthMetadata e ev l) in
  IamAuthService.base o' = IamAuthService.base o
  /\ IamAuthService.iamCredentials o' = IamAuthService.iamCredentials o
  /\ IamAuthService.sslCredentials o' = IamAuthService.sslCredentials o.
Proof.
  intros Hcalls. cbn zeta.
  destruct (step_self e ev l Hcalls) as [->|(c & response & ch & tok & _ & _ & _ & -> & _)];
    auto.
Qed.

(** X8. The identity of the object is never touched: whatever calls are made
    and however they are scheduled, the service-account identity (account,
    key identifier, private key, endpoint), the transport-security material
    and the transport are those the object started with; a timestamp, once
    set, is never null again. *)
Theorem identity_never_changes (self0 : IamAuthService.t) (sched : list (Env * Event)) :
  let o := self (exec IamAuthService.getAuthMetadata sched (start self0)) in
  IamAuthService.base o = IamAuthService.base self0
  /\ IamAuthService.iamCredentials o = IamAuthService.iamCredentials self0
  /\ IamAuthService.sslCredentials o = IamAuthService.sslCredentials self0
  /\ (IamAuthService.tokenTimestamp self0 <> None -> IamAuthService.tokenTimestamp o <> None).
Proof.
  cbn zeta. induction sched as [|[e ev] sched IH] using rev_ind; [auto|].
  rewrite exec_app. cbn [exec].
  destruct (step_identity e ev _ (reachable_shaped self0 sched)) as (Hb & Hi & Hs).
  destruct IH as (IHb & IHi & IHs & IHt).
  rewrite Hb, Hi, Hs. repeat split; try assumption. intros H0.
  destruct (step_self e ev _ (reachable_shaped self0 sched))
    as [->|(c & response & ch & tok & _ & _ & _ & -> & _)]; [auto|discriminate].
Qed.
(** ** The issued-at of the assertion *)

(** X9. The issued-at of a signed assertion is the clock rounded to the
    nearest second, so it lies within half a second of the clock and, in the
    second half of a second, ahead of it: the assertion is then dated in the
    future by up to 500 milliseconds. *)
Theorem issued_at_within_half_second
    (w : World) (self : IamAuthService.t)
    (payload : JwtPayload) (key : Buffer) (options : SignOptions) :
  In (Signing payload key options) (effects (run w IamAuthService.getAuthMetadata self)) ->
  let now := utc w InGetJwtRequest in
  now - 500 < 1000 * iat payload <= now + 500
  /\ (500 <= now mod 1000 -> now < 1000 * iat payload)
  /\ (now mod 1000 < 500 -> 1000 * iat payload <= now)
  /\ 1000 * exp payload - now > 3599 * 1000.
Proof.
  intros Hin. apply signing_of_call in Hin as (-> & _ & _). cbn zeta.
  unfold payloadAt. cbn [iat exp]. rewrite Math_round_toSeconds.
  set (now := utc w InGetJwtRequest).
  pose proof (Z.div_mod (now + 500) 1000 ltac:(lia)) as Hdm.
  pose proof (Z.mod_pos_bound (now + 500) 1000 ltac:(lia)) as Hb.
  pose proof (Z.div_mod now 1000 ltac:(lia)) as Hdm'.
  pose proof (Z.mod_pos_bound now 1000 ltac:(lia)) as Hb'.
  repeat split; lia.
Qed.

Lemma issued_at_within_half_second_witness :
  iat (payloadAt 1700000000500 unissued) = 1700000001
  /\ 1700000000500 < 1000 * iat (payloadAt 1700000000500 unissued).
Proof.
  pose proof (issued_at_within_half_second (worldAt 1700000000500 (Some "t1")) unissued
                (payloadAt 1700000000500 unissued) (keyOf unissued) (optionsOf unissued)) as H.
  cbn zeta in H. destruct H as (_ & Hlate & _).
  - vm_compute. tauto.
  - split.
    + unfold payloadAt. cbn [iat]. rewrite Math_round_toSeconds. reflexivity.
    + apply Hlate. vm_compute. discriminate.
Defined.

(** ** After a failure *)

(** X10. A failed refresh is not remembered. When [updateToken] fails in a
    stale call, for whatever reason (the signer, the timer, a rejection, an
    empty token), the call fails with that error and leaves the object as it
    was, and the next call, made when the clock has not gone back, starts a
    refresh of its own: it arms its timer and signs a new assertion. (A call
    that fails later, when the metadata are built from a token gRPC refuses,
    has installed that token and its timestamp before it fails.) *)
Theorem failure_is_not_cached
    (w w' : World) (self : IamAuthService.t) (err : JsError) :
  result (run w IamAuthService.expired self) = inr true ->
  result (run w IamAuthService.updateToken self) = inl err ->
  utc w InExpired <= utc w' InExpired ->
  let first := run w IamAuthService.getAuthMetadata self in
  let second := run w' IamAuthService.getAuthMetadata (final first) in
  result first = inl err
  /\ final first = self
  /\ result (run w' IamAuthService.expired (final first)) = inr true
  /\ exists rest,
       effects second
       = Timer (10 * 1000)
           :: Signing (payloadAt (utc w' InGetJwtRequest) self) (keyOf self) (optionsOf self)
           :: rest.
Proof.
  cbn zeta. rewrite !run_getAuthMetadata, run_updateToken, run_expired. cbn [result].
  intros Hstale Hfail Hclock. injection Hstale as Hstale. rewrite Hstale.
  assert (Hfirst : andThen (refresh w self) (fun _ self' => answer self')
                   = {| result := inl err; final := self;
                        effects := effects (refresh w self) |}).
  { revert Hfail. unfold refresh, andThen.
    destruct (sign w _ _ _); [cbn; congruence|].
    by_outcome (race w); cbn; congruence. }
  rewrite Hfirst. cbn [result final]. split; [reflexivity|]. split; [reflexivity|].
  assert (Hstale' : stale (utc w' InExpired) self = true).
  { revert Hstale. unfold stale. destruct (IamAuthService.tokenTimestamp self); [|reflexivity].
    intros H. apply Z.gtb_lt in H. apply Z.gtb_lt. lia. }
  rewrite run_expired, Hstale'. split; [reflexivity|].
  unfold refresh, andThen. destruct (sign w' _ _ _); [cbn; eauto|].
  by_outcome (race w'); cbn; eauto.
Qed.

Lemma failure_is_not_cached_witness :
  map (fun r : Run IamAuthService.t Metadata => requests (effects r))
      (IamAuthService.calls [worldAt 1000 (Some ""); worldAt 1001 (Some "t1")] unissued)
  = [1%nat; 1%nat].
Proof.
  pose proof (failure_is_not_cached (worldAt 1000 (Some "")) (worldAt 1001 (Some "t1"))
                unissued (Error "Received empty token from IAM!") eq_refl eq_refl) as H.
  cbn zeta in H. destruct H as (_ & Hfinal & _ & _); [vm_compute; discriminate|].
  cbn [IamAuthService.calls map]. rewrite Hfinal. reflexivity.
Defined.

(** ** The identity is checked at the first call *)

(** X11. An identity the signer rejects is found out at the first call, not
    at construction: on the object the constructor made from it the first
    call always starts a refresh; it arms the timer, then fails with what
    [jwt.sign] threw, before any request and without ever waiting at the
    race for which the timer was armed. *)
Theorem identity_checked_at_first_call
    (super : string -> string -> ISslCredentials -> JsError + GrpcService)
    (authCredentials : IAuthCredentials.t) (self : IamAuthService.t)
    (w : World) (err : JsError) :
  IamAuthService.constructor super authCredentials = inr self ->
  sign w
    {| iss := serviceAccountId (IAuthCredentials.iamCredentials authCredentials);
       aud := "https://iam.api.cloud.yandex.net/iam/v1/tokens";
       iat := Math_round (toSeconds (utc w InGetJwtRequest));
       exp := Math_round (toSeconds (utc w InGetJwtRequest)) + 3600 |}
    (privateKey (IAuthCredentials.iamCredentials authCredentials))
    {| algorithm := PS256;
       keyid := accessKeyId (IAuthCredentials.iamCredentials authCredentials) |}
  = inl err ->
  let call := run w IamAuthService.getAuthMetadata self in
  result call = inl err
  /\ final call = self
  /\ requests (effects call) = 0%nat
  /\ (exists signing, effects call = [Timer (10 * 1000); signing])
  /\ reached (stretch w IamAuthService.getAuthMetadata self) = Ended (inl err).
Proof.
  unfold IamAuthService.constructor. destruct (super _ _ _) as [e|b]; [discriminate|].
  intros Hnew Hsign. injection Hnew as <-. cbn zeta.
  rewrite run_getAuthMetadata, stretch_getAuthMetadata. cbn zeta.
  unfold stale, refresh, andThen, payloadAt, keyOf, optionsOf.
  cbn [IamAuthService.tokenTimestamp IamAuthService.iamCredentials].
  rewrite Hsign. cbn. eauto 10.
Qed.

Lemma identity_checked_at_first_call_witness :
  exists self,
    IamAuthService.constructor GrpcService_lazy emptyIdentity = inr self
    /\ result (run (keyedWorldAt 1000 (Some "t1")) IamAuthService.getAuthMetadata self)
       = inl (SignError "invalid private key").
Proof.
  eexists. split; [reflexivity|].
  pose proof (identity_checked_at_first_call GrpcService_lazy emptyIdentity _
                (keyedWorldAt 1000 (Some "t1")) (SignError "invalid private key")
                eq_refl eq_refl) as H.
  cbn zeta in H. destruct H as [H _]. exact H.
Defined.

(** * Properties of the example script *)

Module BasicExampleFacts.
Import BasicExample.

(** ** Scripts that catch nothing *)

Lemma uncaught_bind {A B : Type} (p : Script A) (f : A -> Script B) :
  uncaught p -> (forall a, uncaught (f a)) -> uncaught (p ≫= f).
Proof.
  unfold mbind, Script_mbind. intros Hp Hf.
  induction p as [a|e|code|lg lvl args k IH|c k IH]; cbn in *; auto.
  destruct Hp as [Hthrow Hk]. split.
  - intros e. rewrite Hthrow. reflexivity.
  - intros a. apply IH, Hk.
Qed.

Lemma uncaught_call (c : Call) : uncaught (call c).
Proof. cbn. split; [reflexivity|intros a; exact I]. Qed.

Lemma uncaught_log (logger : Value) (level : Level) (args : list LogArg) :
  uncaught (log logger level args).
Proof. exact I. Qed.

(** In a script that catches nothing, a call that throws ends the run: the
    run fails with what was thrown, the call is the last entry, and no call
    before it threw. *)
Lemma play_uncaught {A : Type} (h : Host) (p : Script A) (n : nat) :
  uncaught p ->
  let r := play h n p in
  match ending r with
  | Failed e =>
      exists c before,
        trace r = before ++ [Called c (Some e)] /\ forallb (fun x => negb (threw x)) before = true
  | _ => forallb (fun x => negb (threw x)) (trace r) = true
  end.
Proof.
  cbn zeta. revert n.
  induction p as [a|e|code|lg lvl args k IH|c k IH]; intros n Hp; cbn in *;
    try reflexivity; try contradiction.
  - specialize (IH n Hp). destruct (ending (play h n k)) as [a|e|code]; cbn; try exact IH.
    destruct IH as (c & before & -> & Hb).
    exists c, (Logged lg lvl args :: before). split; [reflexivity|exact Hb].
  - destruct Hp as [Hthrow Hk]. destruct (answers h n c) as [e|a].
    + rewrite Hthrow. cbn. exists c, []. split; reflexivity.
    + specialize (IH (inr a) (S n) (Hk a)).
      destruct (ending (play h (S n) (k (inr a)))) as [a'|e|code]; cbn; try exact IH.
      destruct IH as (c' & before & -> & Hb).
      exists c', (Called c None :: before). split; [reflexivity|exact Hb].
Qed.

(** What [try .. catch] with a handler that only logs makes of a script
    that catches nothing. *)
Lemma play_try_catch_log (h : Host) (p : Script unit) (n : nat) (logger : Value) :
  uncaught p ->
  let r := play h n p in
  play h n (try_catch p (fun e => log logger error [thrown e]))
  = match ending r with
    | Failed e =>
        {| ending := Finished tt; trace := trace r ++ [Logged logger error [thrown e]] |}
    | _ => r
    end.
Proof.
  cbn zeta. revert n.
  induction p as [a|e|code|lg lvl args k IH|c k IH]; intros n Hp; cbn in *;
    try reflexivity; try contradiction.
  - rewrite (IH n Hp). destruct (play h n k) as [[a|e|code] t]; reflexivity.
  - destruct Hp as [Hthrow Hk]. destruct (answers h n c) as [e|a].
    + rewrite Hthrow. reflexivity.
    + rewrite (IH (inr a) (S n) (Hk a)).
      destruct (play h (S n) (k (inr a))) as [[a'|e|code] t]; reflexivity.
Qed.

(** The scripts of the example catch nothing, but for [main]. *)
Ltac uncaught_leaf :=
  lazymatch goal with
  | |- uncaught (call ?c) => exact (uncaught_call c)
  | |- uncaught (log _ _ _) => exact I
  | |- uncaught (mret _) => exact I
  end.

Ltac uncaught_seq :=
  repeat (apply uncaught_bind; [uncaught_leaf|intros ?]); uncaught_leaf.

Lemma uncaught_createTables (session : Value) : uncaught (createTables session).
Proof. unfold createTables. uncaught_seq. Qed.

Lemma uncaught_fillTablesWithData (prefix : string) (session logger : Value) :
  uncaught (fillTablesWithData prefix session logger).
Proof. unfold fillTablesWithData. uncaught_seq. Qed.

Lemma uncaught_callback (f : Callback) (session : Value) : uncaught (callback f session).
Proof.
  destruct f as [logger dbName|logger dbName]; unfold callback, selectSimple.
  - repeat (apply uncaught_bind; [uncaught_leaf|intros ?]).
    apply uncaught_bind; [apply uncaught_createTables|intros ?].
    apply uncaught_bind; [uncaught_leaf|intros ?].
    apply uncaught_bind; [apply uncaught_fillTablesWithData|intros ?].
    uncaught_leaf.
  - apply uncaught_bind; [|intros ?; uncaught_leaf]. uncaught_seq.
Qed.

Lemma uncaught_run (logger : Value) (entryPoint dbName : string) :
  uncaught (run logger entryPoint dbName).
Proof.
  unfold run.
  do 4 (apply uncaught_bind; [uncaught_leaf|intros ?]).
  apply uncaught_bind; [|intros ?; uncaught_seq].
  match goal with |- uncaught (if negb ?b then _ else _) => destruct b; exact I end.
Qed.

Lemma first_failure_ends {A : Type} (h : Host) (p : Script A) (n : nat) (c : Call)
    (e : JsError) :
  uncaught p ->
  In (Called c (Some e)) (trace (play h n p)) ->
  ending (play h n p) = Failed e
  /\ last (trace (play h n p)) = Some (Called c (Some e)).
Proof.
  intros Hp Hin. pose proof (play_uncaught h p n Hp) as H. cbn zeta in H.
  assert (Hno : forall t : list Entry,
             forallb (fun x => negb (threw x)) t = true -> ~ In (Called c (Some e)) t).
  { intros t Ht Hc. rewrite forallb_forall in Ht. specialize (Ht _ Hc). discriminate. }
  destruct (ending (play h n p)) as [a|e'|code].
  - exfalso. exact (Hno _ H Hin).
  - destruct H as (c' & before & Heq & Hb). rewrite Heq in *.
    apply in_app_or in Hin as [Hin|[Hin|[]]]; [exfalso; exact (Hno _ Hb Hin)|].
    injection Hin as -> ->. split; [reflexivity|apply last_snoc].
  - exfalso. exact (Hno _ H Hin).
Qed.

(** One step of a run: the answer of the host to the next call, both ways. *)
Ltac next_answer h :=
  match goal with
  | |- context [answers h ?n ?c] => destruct (answers h n c) as [?|?] eqn:?
  end.

(** What is left to show once a run is known entry by entry. *)
Ltac which_entry :=
  repeat match goal with
         | H : _ \/ _ |- _ => destruct H
         | H : False |- _ => destruct H
         end;
  simplify_eq.

Ltac known_run :=
  cbn;
  repeat match goal with
         | |- _ /\ _ => split
         | |- _ <-> _ => split
         end;
  intros; cbn in *; which_entry; cbn in *;
  repeat match goal with
         | u : unit |- _ => destruct u
         | H : Exited _ = Exited _ |- _ => injection H as <-
         end;
  first [reflexivity | discriminate | congruence | solve [eauto 20]].

Lemma run_cleaning (h : Host) (n : nat) (logger : Value) (entryPoint dbName : string) :
  let r := play h n (run logger entryPoint dbName) in
  (ending r = Finished tt <-> existsb destroyed (trace r) = true)
  /\ (forall c e, In (Called c (Some e)) (trace r) ->
                  cleaning (Called c (Some e)) = false ->
                  existsb cleaning (trace r) = false)
  /\ (forall code, ending r = Exited code ->
                   code = 1 /\ existsb cleaning (trace r) = false
                   /\ existsb sessionAsked (trace r) = false
                   /\ last (trace r)
                      = Some (Logged logger fatal
                                [message "Driver has not become ready in 10000ms!"])
                   /\ exists authService driver,
                        answers h n getCredentialsFromEnv = inr authService
                        /\ answers h (S n) (Driver_new entryPoint dbName authService)
                           = inr driver
                        /\ answers h (S (S n)) (ready driver 10000) = inr false).
Proof.
  cbn zeta. unfold run. cbn.
  do 2 (next_answer h; cbn; [known_run|]).
  next_answer h; cbn; [known_run|].
  match goal with a : Answer (ready _ _) |- _ => destruct a end; cbn; [|known_run].
  repeat (next_answer h; cbn; [known_run|]).
  known_run.
Qed.

(** ** [run] *)

(** X12. [run] cleans up only at its very end. The first call that throws
    ends the run with what it threw, and nothing is called after it: when a
    call other than the clean-up itself throws, no directory is removed and
    the driver is not destroyed, whatever was created before. The run
    finishes exactly when the driver was destroyed. *)
Theorem run_cleans_up_only_at_the_end
    (h : Host) (n : nat) (logger : Value) (entryPoint dbName : string) :
  let r := play h n (run logger entryPoint dbName) in
  (ending r = Finished tt <-> existsb destroyed (trace r) = true)
  /\ (forall c e, In (Called c (Some e)) (trace r) ->
                  ending r = Failed e /\ last (trace r) = Some (Called c (Some e)))
  /\ (forall c e, In (Called c (Some e)) (trace r) ->
                  cleaning (Called c (Some e)) = false ->
                  existsb cleaning (trace r) = false).
Proof.
  cbn zeta. destruct (run_cleaning h n logger entryPoint dbName) as (Hend & Hclean & _).
  split; [exact Hend|]. split; [|exact Hclean].
  intros c e Hin. apply first_failure_ends; [apply uncaught_run|exact Hin].
Qed.

(** X13. [run] ends the process, with status 1, exactly when the driver
    was made and answers that it is not ready within 10000 ms. It has then
    logged the fatal line last, has asked for no session, and has neither
    removed a directory nor destroyed the driver. *)
Theorem run_exits_when_driver_not_ready
    (h : Host) (n : nat) (logger : Value) (entryPoint dbName : string) :
  let r := play h n (run logger entryPoint dbName) in
  (forall code, ending r = Exited code ->
     code = 1 /\ existsb cleaning (trace r) = false
     /\ existsb sessionAsked (trace r) = false
     /\ last (trace r)
        = Some (Logged logger fatal [message "Driver has not become ready in 10000ms!"]))
  /\ ((exists code, ending r = Exited code) <->
      exists authService driver,
        answers h n getCredentialsFromEnv = inr authService
        /\ answers h (S n) (Driver_new entryPoint dbName authService) = inr driver
        /\ answers h (S (S n)) (ready driver 10000) = inr false).
Proof.
  cbn zeta. destruct (run_cleaning h n logger entryPoint dbName) as (_ & _ & Hexit).
  split; [|split].
  - intros code Hcode. destruct (Hexit code Hcode) as (H1 & H2 & H3 & H4 & _). auto.
  - intros [code Hcode]. apply (Hexit code Hcode).
  - intros (authService & driver & Ha & Hd & Hr). exists 1.
    unfold run. cbn. rewrite Ha. cbn. rewrite Hd. cbn. rewrite Hr. reflexivity.
Qed.

(** ** [main] *)

(** X14. [main] wants two arguments after the script's name. When the
    entry-point is missing or empty it logs that and ends the process with
    status 1, whatever the database name is; when only the database name is
    missing or empty it logs that and ends the process with status 1; in
    both cases nothing of the SDK has been called. Only with both does it
    announce the run and start it. *)
Theorem main_requires_arguments
    (h : Host) (n : nat) (argv : list string) (logger : Value) :
  answers h n (getLogger "debug") = inr logger ->
  let r := play h n (main argv) in
  (given (argv !! 2%nat) = false ->
   r = {| ending := Exited 1;
          trace := [Called (getLogger "debug") None;
                    Logged logger fatal
                      [message "Cluster entry-point is missing, cannot run further!"]] |})
  /\ (given (argv !! 2%nat) = true -> given (argv !! 3%nat) = false ->
      r = {| ending := Exited 1;
             trace := [Called (getLogger "debug") None;
                       Logged logger fatal
                         [message "Database name is missing, cannot run further!"]] |})
  /\ (given (argv !! 2%nat) = true -> given (argv !! 3%nat) = true ->
      exists entryPoint dbName rest,
        argv !! 2%nat = Some entryPoint /\ argv !! 3%nat = Some dbName
        /\ trace r
           = Called (getLogger "debug") None
               :: Logged logger info
                    [message ("Running basic-example script against entry-point '"
                              ++ entryPoint ++ "' and database '" ++ dbName ++ "'.")%string]
               :: Called getCredentialsFromEnv
                    (thrownBy (answers h (S n) getCredentialsFromEnv))
               :: rest).
Proof.
  intros Hlogger. cbn zeta. unfold main. cbn -[run try_catch]. rewrite Hlogger.
  cbn -[run try_catch]. split; [|split].
  - intros ->. reflexivity.
  - intros -> ->. reflexivity.
  - intros H2 H3. rewrite H2, H3.
    destruct (argv !! 2%nat) as [entryPoint|]; [|discriminate].
    destruct (argv !! 3%nat) as [dbName|]; [|discriminate].
    exists entryPoint, dbName. cbn. eexists. repeat split.
Qed.

Lemma main_requires_arguments_witness :
  ending (play (hostReady true) 0 (main ["node"; "index.js"])) = Exited 1
  /\ ending (play (hostReady true) 0 (main ["node"; "index.js"; "grpc://ydb:2135"; ""]))
     = Exited 1.
Proof.
  split.
  - pose proof (main_requires_arguments (hostReady true) 0 ["node"; "index.js"] "logger"
                  eq_refl) as H.
    cbn zeta in H. destruct H as (H & _). rewrite H; reflexivity.
  - pose proof (main_requires_arguments (hostReady true) 0
                  ["node"; "index.js"; "grpc://ydb:2135"; ""] "logger" eq_refl) as H.
    cbn zeta in H. destruct H as (_ & H & _). rewrite H; reflexivity.
Defined.

(** X15. Once it has its logger, [main] never fails: whatever a call of the
    run throws is logged as an error, as the last thing the script does, and
    the script then ends normally, without an exit status. The only status
    it ever sets is 1. *)
Theorem main_logs_and_swallows_errors
    (h : Host) (n : nat) (argv : list string) (logger : Value) :
  answers h n (getLogger "debug") = inr logger ->
  let r := play h n (main argv) in
  (forall e, ending r <> Failed e)
  /\ (forall c e, In (Called c (Some e)) (trace r) ->
                  ending r = Finished tt
                  /\ last (trace r) = Some (Logged logger error [thrown e]))
  /\ (forall code, ending r = Exited code -> code = 1).
Proof.
  intros Hlogger. cbn zeta. unfold main. cbn -[run try_catch]. rewrite Hlogger.
  cbn -[run try_catch].
  destruct (given (argv !! 2%nat)); cbn -[run try_catch];
    [destruct (given (argv !! 3%nat)); cbn -[run try_catch]|];
    [|known_run|known_run].
  set (entryPoint := default "" (argv !! 2%nat)).
  set (dbName := default "" (argv !! 3%nat)).
  rewrite (play_try_catch_log h _ (S n) logger (uncaught_run logger entryPoint dbName)).
  pose proof (play_uncaught h _ (S n) (uncaught_run logger entryPoint dbName)) as Hrun.
  destruct (run_cleaning h (S n) logger entryPoint dbName) as (_ & _ & Hexit).
  cbn zeta in Hrun.
  destruct (play h (S n) (run logger entryPoint dbName)) as [[[]|e'|code] t];
    cbn [ending trace] in *.
  - assert (Hno : forall c e, ~ In (Called c (Some e)) t).
    { intros c e Hc. rewrite forallb_forall in Hrun. specialize (Hrun _ Hc). discriminate. }
    split; [discriminate|]. split; [|discriminate].
    intros c e [Hin|[Hin|Hin]]; try discriminate. exfalso. exact (Hno _ _ Hin).
  - destruct Hrun as (c' & before & -> & Hb).
    split; [discriminate|]. split; [|discriminate].
    intros c e [Hin|[Hin|Hin]]; try discriminate. split; [reflexivity|].
    rewrite forallb_forall in Hb.
    apply in_app_or in Hin as [Hin|Hin].
    + apply in_app_or in Hin as [Hin|[Hin|[]]].
      * specialize (Hb _ Hin). discriminate.
      * injection Hin as -> ->.
        rewrite !app_comm_cons. apply last_snoc.
    + destruct Hin as [Hin|[]]. discriminate.
  - assert (Hno : forall c e, ~ In (Called c (Some e)) t).
    { intros c e Hc. rewrite forallb_forall in Hrun. specialize (Hrun _ Hc). discriminate. }
    split; [discriminate|]. split.
    + intros c e [Hin|[Hin|Hin]]; try discriminate. exfalso. exact (Hno _ _ Hin).
    + intros code' H. injection H as <-. apply (Hexit code eq_refl).
Qed.

Lemma main_logs_and_swallows_errors_witness :
  let r := play (hostFailingAt 5 (Error "UNAVAILABLE")) 0
             (main ["node"; "index.js"; "grpc://ydb:2135"; "/local"]) in
  ending r = Finished tt
  /\ last (trace r) = Some (Logged "logger" error [thrown (Error "UNAVAILABLE")]).
Proof.
  pose proof (main_logs_and_swallows_errors (hostFailingAt 5 (Error "UNAVAILABLE")) 0
                ["node"; "index.js"; "grpc://ydb:2135"; "/local"] "logger" eq_refl) as H.
  cbn zeta in *. destruct H as (_ & H & _).
  apply (H (withSession "driver" (selecting "logger" "/local"))).
  vm_compute. tauto.
Defined.

(** ** The session that prepares the tables *)

(** An entry is in a run known entry by entry. *)
Ltac in_run := cbn; repeat first [left; reflexivity | right].

Ltac found_in_run :=
  cbn -[fillQuery];
  repeat match goal with
         | |- _ <-> _ => split
         end;
  intros; cbn -[fillQuery] in *; which_entry;
  repeat match goal with
         | u : unit |- _ => destruct u
         | |- _ /\ _ => split
         | |- exists _, _ => eexists
         end;
  first [reflexivity | discriminate | eassumption | in_run].

(** X16. In the session that prepares the tables nothing is created before
    the three old tables were dropped: when a table cannot be dropped, no
    table is created and no data is written. The data are written by the
    query that was prepared just before, under the identifier the host gave
    for it, and only after the three tables were created. The first call
    that throws ends the session's function with what it threw. *)
Theorem tables_dropped_before_created
    (h : Host) (n : nat) (logger : Value) (dbName : string) (session : Value) :
  let r := play h n (callback (preparing logger dbName) session) in
  (forall table description threw_,
      In (Called (createTable session table description) threw_) (trace r) ->
      In (Called (dropTable session "series") None) (trace r)
      /\ In (Called (dropTable session "episodes") None) (trace r)
      /\ In (Called (dropTable session "seasons") None) (trace r))
  /\ (forall query params threw_,
        In (Called (executeQuery session query params) threw_) (trace r) ->
        (exists id,
            query = prepared id
            /\ answers h (n + 6) (prepareQuery session (fillQuery dbName)) = inr id)
        /\ exists series seasons episodes,
             In (Called (createTable session "series" series) None) (trace r)
             /\ In (Called (createTable session "seasons" seasons) None) (trace r)
             /\ In (Called (createTable session "episodes" episodes) None) (trace r))
  /\ (forall c e, In (Called c (Some e)) (trace r) ->
                  ending r = Failed e /\ last (trace r) = Some (Called c (Some e)))
  /\ (ending r = Finished tt <->
      last (trace r) = Some (Logged logger info [message "The data has been inserted"])).
Proof.
  cbn zeta. split; [|split; [|split]].
  3:{ intros c e Hin. apply first_failure_ends; [apply uncaught_callback|exact Hin]. }
  all: unfold callback, createTables, fillTablesWithData; cbn -[fillQuery];
    replace (n + 6)%nat with (S (S (S (S (S (S n)))))) by lia;
    repeat (next_answer h; cbn -[fillQuery]; [found_in_run|]);
    found_in_run.
Qed.

Lemma tables_dropped_before_created_witness :
  let r := play (hostFailingAt 1 (Error "table not found")) 0
             (callback (preparing "logger" "/local") "session") in
  trace r
  = [Logged "logger" info [message "Dropping old tables..."];
     Called (dropTable "session" "series") None;
     Called (dropTable "session" "episodes") (Some (Error "table not found"))]
  /\ ending r = Failed (Error "table not found").
Proof.
  cbn zeta. split; [reflexivity|].
  pose proof (tables_dropped_before_created (hostFailingAt 1 (Error "table not found")) 0
                "logger" "/local" "session") as H.
  cbn zeta in H. destruct H as (_ & _ & H & _).
  apply (H (dropTable "session" "episodes")). vm_compute. tauto.
Defined.
End BasicExampleFacts.
